(** * Mulberry Web-Music IDE: the tone generator and the C-major scale demo

    A shallow embedding of [mulberry_audio.py]: the Streamlit sidebar that
    produces the six session parameters, and the JavaScript of the embedded
    audio component ([playTone], [playCMajorScale], [playNoteInScale],
    [showStatus], [updateStatus], [hideStatus], [initAudioContext]).

    What the browser does for the page is modelled as far as the page uses
    it:
    - numbers are JavaScript numbers in the source and rationals here, so
      equations on times and gains are equations of exact arithmetic
      ([==] on [Q]);
    - an [AudioParam] is its automation timeline, evaluated as the Web Audio
      API prescribes for [setValueAtTime] and [linearRampToValueAtTime];
    - [setTimeout] puts a callback into a queue ordered by due time, and the
      event loop fires the first one when the clock reaches its due time;
      the clock of the audio context runs with the clock of the event loop,
      from the instant the context was made. *)

From Stdlib Require Import ZArith QArith Qabs Lqa Lia List String Bool.
Import ListNotations.
Open Scope Q_scope.

(** ** The automation timeline of an AudioParam

    [setValueAtTime] and [linearRampToValueAtTime] insert an event into the
    parameter's timeline, which is kept ordered by time; an event goes after
    the events of the same time that are already there. *)

Module AudioParam.

Inductive EventKind := SetValue | LinearRamp.

Record Event := mkEvent {
  ev_kind : EventKind;
  ev_value : Q;
  ev_time : Q
}.

Record t := mk {
  defaultValue : Q;
  events : list Event
}.

Fixpoint insert_event (e : Event) (l : list Event) : list Event :=
  match l with
  | [] => [e]
  | e' :: l' =>
      if Qle_bool (ev_time e') (ev_time e)
      then e' :: insert_event e l'
      else e :: l
  end.

Definition setValueAtTime (value startTime : Q) (p : t) : t :=
  mk (defaultValue p) (insert_event (mkEvent SetValue value startTime) (events p)).

Definition linearRampToValueAtTime (value endTime : Q) (p : t) : t :=
  mk (defaultValue p) (insert_event (mkEvent LinearRamp value endTime) (events p)).

(** The value at time [time], given the last event at or before it
    (value [v0] at time [t0]) and the events after that one.  On the way to a
    ramp event the value is interpolated linearly; otherwise it holds. *)
Fixpoint value_from (v0 t0 : Q) (l : list Event) (time : Q) : Q :=
  match l with
  | [] => v0
  | e :: l' =>
      if Qle_bool (ev_time e) time
      then value_from (ev_value e) (ev_time e) l' time
      else match ev_kind e with
           | LinearRamp =>
               v0 + (ev_value e - v0) * ((time - t0) / (ev_time e - t0))
           | SetValue => v0
           end
  end.

(** Before the first event the parameter has its default value. *)
Definition value_at (p : t) (time : Q) : Q :=
  match events p with
  | [] => defaultValue p
  | e :: l =>
      if Qle_bool (ev_time e) time
      then value_from (ev_value e) (ev_time e) l time
      else defaultValue p
  end.

(** The times of a timeline do not go back from [t0] on. *)
Fixpoint ascending (t0 : Q) (l : list Event) : Prop :=
  match l with
  | [] => True
  | e :: l' => t0 <= ev_time e /\ ascending (ev_time e) l'
  end.

(** From value [v0] at [t0] on, the timeline is made of ramps, none steeper
    than [slope]. *)
Fixpoint ramps_within (slope v0 t0 : Q) (l : list Event) : Prop :=
  match l with
  | [] => True
  | e :: l' =>
      ev_kind e = LinearRamp
      /\ t0 <= ev_time e
      /\ - (slope * (ev_time e - t0)) <= ev_value e - v0 <= slope * (ev_time e - t0)
      /\ ramps_within slope (ev_value e) (ev_time e) l'
  end.

End AudioParam.

Import AudioParam.

(** ** Audio nodes *)

Inductive OscillatorType := sine | square | sawtooth | triangle.

(** The strings the waveform select box offers. *)
Definition waveform_options : list string :=
  ["sine"; "square"; "sawtooth"; "triangle"]%string.

Definition parse_type (s : string) : option OscillatorType :=
  if String.eqb s "sine" then Some sine
  else if String.eqb s "square" then Some square
  else if String.eqb s "sawtooth" then Some sawtooth
  else if String.eqb s "triangle" then Some triangle
  else None.

(** An oscillator wired to its own gain node, wired to the destination:
    the graph both [playTone] and [playNoteInScale] build. *)
Record Voice := mkVoice {
  osc_type : OscillatorType;
  osc_frequency : AudioParam.t;
  gain : AudioParam.t;
  start_time : option Q;
  stop_time : option Q
}.

(** [createOscillator()]: a sine at 440 Hz; [createGain()]: gain 1. *)
Definition createOscillator_frequency : AudioParam.t := AudioParam.mk 440 [].
Definition createGain_gain : AudioParam.t := AudioParam.mk 1 [].

(** [oscillator.type = waveform]: a string that is no oscillator type is
    ignored by the setter. *)
Definition set_type (waveform : string) (current : OscillatorType) : OscillatorType :=
  match parse_type waveform with
  | Some ty => ty
  | None => current
  end.

(** The gain the voice applies at [time]. *)
Definition gain_at (v : Voice) (time : Q) : Q := value_at (gain v) time.

(** The frequency of the voice's oscillator at [time]. *)
Definition voice_frequency (v : Voice) (time : Q) : Q :=
  value_at (osc_frequency v) time.

(** The voice sounds from [start] to [stop]. *)
Definition sounding (v : Voice) (time : Q) : bool :=
  match start_time v, stop_time v with
  | Some s, Some e => Qle_bool s time && negb (Qle_bool e time)
  | Some s, None => Qle_bool s time
  | None, _ => false
  end.

Definition audible_duration (v : Voice) : option Q :=
  match start_time v, stop_time v with
  | Some s, Some e => Some (e - s)
  | _, _ => None
  end.

(** ** The parameters passed from Streamlit into the page *)

Record Settings := mkSettings {
  frequency : Q;
  waveform : string;
  attack : Q;
  decay : Q;
  sustain : Q;
  release : Q
}.

(** ** playTone: the audio graph of a single tone *)

Section PlayToneVoice.
Variable cfg : Settings.
Variable now : Q.

(* const noteDuration = attack + decay + 0.5; *)
Definition tone_noteDuration : Q := attack cfg + decay cfg + (1#2).

Definition playTone_gain : AudioParam.t :=
  linearRampToValueAtTime 0 (now + tone_noteDuration + release cfg)
    (linearRampToValueAtTime (sustain cfg) (now + tone_noteDuration)
      (linearRampToValueAtTime (sustain cfg) (now + attack cfg + decay cfg)
        (linearRampToValueAtTime 1 (now + attack cfg)
          (setValueAtTime 0 now createGain_gain)))).

Definition playTone_voice : Voice :=
  {| osc_type := set_type (waveform cfg) sine;
     osc_frequency := setValueAtTime (frequency cfg) now createOscillator_frequency;
     gain := playTone_gain;
     start_time := Some now;
     stop_time := Some (now + tone_noteDuration + release cfg) |}.
End PlayToneVoice.

(** The same timeline with the sustain hold, the literal 0.5 of
    [noteDuration], as a parameter: [playTone_gain] is its instance at 1/2. *)
Definition tone_gain_with_hold (cfg : Settings) (hold now : Q) : AudioParam.t :=
  linearRampToValueAtTime 0 (now + (attack cfg + decay cfg + hold) + release cfg)
    (linearRampToValueAtTime (sustain cfg) (now + (attack cfg + decay cfg + hold))
      (linearRampToValueAtTime (sustain cfg) (now + attack cfg + decay cfg)
        (linearRampToValueAtTime 1 (now + attack cfg)
          (setValueAtTime 0 now createGain_gain)))).

(** ** playNoteInScale: the audio graph of one note of the scale *)

Section ScaleVoice.
Variable waveform_name : string.
Variables freq duration now : Q.

Definition quickAttack : Q := 1#100.
Definition quickRelease : Q := 5#100.

Definition playNoteInScale_gain : AudioParam.t :=
  linearRampToValueAtTime 0 (now + duration)
    (linearRampToValueAtTime (1#2) (now + duration - quickRelease)
      (linearRampToValueAtTime (1#2) (now + quickAttack)
        (setValueAtTime 0 now createGain_gain))).

Definition playNoteInScale_voice : Voice :=
  {| osc_type := set_type waveform_name sine;
     osc_frequency := setValueAtTime freq now createOscillator_frequency;
     gain := playNoteInScale_gain;
     start_time := Some now;
     stop_time := Some (now + duration) |}.
End ScaleVoice.

(** ** The page: its globals, the status element, the timers *)

(** [<div class="status" id="status">]: its text, and whether its class
    list holds [active] (the style sheet shows the element only then). *)
Record StatusElement := mkStatus {
  textContent : string;
  active : bool
}.

(** What the page passes to [setTimeout]. *)
Inductive Callback :=
| CallPlayNoteInScale (freq duration : Q) (noteName : string)
| CallHideStatus.

(** A pending timer: the instant it is due, in milliseconds. *)
Record Timer := mkTimer {
  due : Q;
  callback : Callback
}.

Record Page := mkPage {
  settings : Settings;        (* the constants the template fills in *)
  clock_ms : Q;               (* the time of the event loop, in ms *)
  audioContext : option Q;    (* null, or the instant the context was made *)
  status : StatusElement;
  timers : list Timer;        (* ordered by due time *)
  voices : list Voice         (* the graphs built so far, oldest first *)
}.

Definition set_status (s : StatusElement) (st : Page) : Page :=
  mkPage (settings st) (clock_ms st) (audioContext st) s (timers st) (voices st).

Definition set_timers (l : list Timer) (st : Page) : Page :=
  mkPage (settings st) (clock_ms st) (audioContext st) (status st) l (voices st).

Definition set_clock (c : Q) (st : Page) : Page :=
  mkPage (settings st) c (audioContext st) (status st) (timers st) (voices st).

Definition set_audioContext (a : option Q) (st : Page) : Page :=
  mkPage (settings st) (clock_ms st) a (status st) (timers st) (voices st).

Definition set_settings (s : Settings) (st : Page) : Page :=
  mkPage s (clock_ms st) (audioContext st) (status st) (timers st) (voices st).

Definition connect (v : Voice) (st : Page) : Page :=
  mkPage (settings st) (clock_ms st) (audioContext st) (status st) (timers st)
         (voices st ++ [v]).

(** What the component shows when it is loaded with the given settings. *)
Definition load_page (cfg : Settings) : Page :=
  {| settings := cfg;
     clock_ms := 0;
     audioContext := None;
     status := mkStatus EmptyString false;
     timers := [];
     voices := [] |}.

(** *** Status display *)

Definition showStatus_element (message : string) (s : StatusElement) : StatusElement :=
  mkStatus message true.

Definition updateStatus_element (message : string) (s : StatusElement) : StatusElement :=
  if active s then mkStatus message (active s) else s.

Definition hideStatus_element (s : StatusElement) : StatusElement :=
  mkStatus (textContent s) false.

Definition showStatus (message : string) (st : Page) : Page :=
  set_status (showStatus_element message (status st)) st.

Definition updateStatus (message : string) (st : Page) : Page :=
  set_status (updateStatus_element message (status st)) st.

Definition hideStatus (st : Page) : Page :=
  set_status (hideStatus_element (status st)) st.

(** *** Timers *)

Fixpoint insert_timer (tm : Timer) (l : list Timer) : list Timer :=
  match l with
  | [] => [tm]
  | tm' :: l' =>
      if Qle_bool (due tm') (due tm)
      then tm' :: insert_timer tm l'
      else tm :: l
  end.

(** [setTimeout(callback, delay)], [delay] in milliseconds. *)
Definition setTimeout (cb : Callback) (delay : Q) (st : Page) : Page :=
  set_timers (insert_timer (mkTimer (clock_ms st + delay) cb) (timers st)) st.

(** *** The audio context *)

(** [audioContext.currentTime], in seconds since the context was made;
    [None] is the TypeError of reading it from [null]. *)
Definition currentTime (st : Page) : option Q :=
  match audioContext st with
  | Some origin => Some ((clock_ms st - origin) / 1000)
  | None => None
  end.

(** A context made in a click handler is running, and [resume()] leaves a
    running context as it is. *)
Definition initAudioContext (st : Page) : Page :=
  match audioContext st with
  | None =>
      showStatus "Audio context initialized"
                 (set_audioContext (Some (clock_ms st)) st)
  | Some _ => st
  end.

(** *** The two buttons and the scale's notes *)

Notation "x <- e ;; k" :=
  (match e with Some x => k | None => None end)
  (at level 61, e at next level, right associativity).

(** The braces of the template reach the script as plain braces without a
    dollar sign, so the back-quoted strings are shown as they stand. *)
Definition tone_message : string :=
  "Playing {frequency}Hz {waveform} tone with ADSR envelope".
Definition note_message : string :=
  "Playing {noteName} ({freq.toFixed(2)}Hz)".

Definition playTone (st : Page) : option Page :=
  let st := initAudioContext st in
  now <- currentTime st ;;
  let cfg := settings st in
  let noteDuration := tone_noteDuration cfg in
  let st := connect (playTone_voice cfg now) st in
  let st := showStatus tone_message st in
  Some (setTimeout CallHideStatus ((noteDuration + release cfg) * 1000 + 500) st).

Definition playNoteInScale (freq duration : Q) (noteName : string) (st : Page)
  : option Page :=
  now <- currentTime st ;;
  let st := connect (playNoteInScale_voice (waveform (settings st)) freq duration now) st in
  Some (updateStatus note_message st).

Definition cMajorScale : list Q :=
  [ 26163 # 100;  (* C4 *)
    29366 # 100;  (* D4 *)
    32963 # 100;  (* E4 *)
    34923 # 100;  (* F4 *)
    39200 # 100;  (* G4 *)
    44000 # 100;  (* A4 *)
    49388 # 100;  (* B4 *)
    52325 # 100   (* C5 (octave) *) ].

Definition noteNames : list string :=
  ["C4"; "D4"; "E4"; "F4"; "G4"; "A4"; "B4"; "C5"]%string.

Definition scale_noteDuration : Q := 3 # 10.

Definition Q_of_nat (n : nat) : Q := inject_Z (Z.of_nat n).

(** [array.forEach((x, index) => ...)], from [index] on. *)
Fixpoint forEach {A St : Type} (f : A -> nat -> St -> St) (l : list A) (index : nat)
  (st : St) : St :=
  match l with
  | [] => st
  | x :: l' => forEach f l' (S index) (f x index st)
  end.

Definition schedule_note (freq : Q) (index : nat) (st : Page) : Page :=
  setTimeout
    (CallPlayNoteInScale freq scale_noteDuration (nth index noteNames "undefined"%string))
    (Q_of_nat index * scale_noteDuration * 1000) st.

Definition playCMajorScale (st : Page) : Page :=
  let st := initAudioContext st in
  let st := showStatus "Playing C-Major scale..." st in
  let st := forEach schedule_note cMajorScale 0 st in
  let totalDuration := Q_of_nat (List.length cMajorScale) * scale_noteDuration in
  setTimeout CallHideStatus (totalDuration * 1000 + 500) st.

(** The timer that [playCMajorScale] sets for the note at [index], when the
    clock shows [clock]. *)
Definition note_timer (clock : Q) (index : nat) (freq : Q) : Timer :=
  mkTimer (clock + Q_of_nat index * scale_noteDuration * 1000)
          (CallPlayNoteInScale freq scale_noteDuration
             (nth index noteNames "undefined"%string)).

(** *** The event loop *)

(** A callback that throws leaves the page as it was. *)
Definition run_callback (cb : Callback) (st : Page) : Page :=
  match cb with
  | CallPlayNoteInScale freq duration noteName =>
      match playNoteInScale freq duration noteName st with
      | Some st' => st'
      | None => st
      end
  | CallHideStatus => hideStatus st
  end.

(** The later of two instants. *)
Definition later (a b : Q) : Q := if Qle_bool a b then b else a.

(** The first pending timer fires when the clock reaches its due time. *)
Definition fire (tm : Timer) (st : Page) : Page :=
  run_callback (callback tm) (set_clock (later (clock_ms st) (due tm)) st).

Fixpoint run (fuel : nat) (st : Page) : Page :=
  match fuel with
  | O => st
  | S n =>
      match timers st with
      | [] => st
      | tm :: rest => run n (fire tm (set_timers rest st))
      end
  end.

(** No callback of this page sets a timer, so as many steps as there are
    pending timers empty the queue. *)
Definition run_to_completion (st : Page) : Page := run (List.length (timers st)) st.

(** The user lets time pass until [time_ms]: the timers due by then fire. *)
Fixpoint wait_until (fuel : nat) (time_ms : Q) (st : Page) : Page :=
  match fuel with
  | O => set_clock (later (clock_ms st) time_ms) st
  | S n =>
      match timers st with
      | [] => set_clock (later (clock_ms st) time_ms) st
      | tm :: rest =>
          if Qle_bool (due tm) time_ms
          then wait_until n time_ms (fire tm (set_timers rest st))
          else set_clock (later (clock_ms st) time_ms) st
      end
  end.

(** What the user can do with the page. *)
Inductive UserAction :=
| ClickPlayTone
| ClickPlayScale
| Wait (time_ms : Q).

Definition act (a : UserAction) (st : Page) : Page :=
  match a with
  | ClickPlayTone => match playTone st with Some st' => st' | None => st end
  | ClickPlayScale => playCMajorScale st
  | Wait time_ms => wait_until (List.length (timers st)) time_ms st
  end.

Definition perform (actions : list UserAction) (st : Page) : Page :=
  fold_left (fun s a => act a s) actions st.

(** The voices that a click on "Play C-Major Scale" adds to the page, once
    its timers have fired. *)
Definition scale_voices (st : Page) : list Voice :=
  skipn (List.length (voices st)) (voices (run_to_completion (playCMajorScale st))).

(** The instant (in ms) at which the audio context counts from, once
    [initAudioContext] has run. *)
Definition context_origin (st : Page) : Q :=
  match audioContext st with
  | Some origin => origin
  | None => clock_ms st
  end.

(** When the note at [index] of a scale begun in [st] starts, on the clock of
    the audio context, and the graph it is played with. *)
Definition scale_note_start (st : Page) (index : nat) : Q :=
  (clock_ms st + Q_of_nat index * scale_noteDuration * 1000 - context_origin st) / 1000.

Definition scale_note (st : Page) (index : nat) (freq : Q) : Voice :=
  playNoteInScale_voice (waveform (settings st)) freq scale_noteDuration
                        (scale_note_start st index).

(** What setting a timer leaves alone. *)
Definition same_but_timers (st st' : Page) : Prop :=
  settings st' = settings st /\ clock_ms st' = clock_ms st
  /\ audioContext st' = audioContext st /\ status st' = status st
  /\ voices st' = voices st.

(** Two pages that differ at most in their settings, and there at most in
    the frequency and the envelope. *)
Definition agree_but_envelope (st1 st2 : Page) : Prop :=
  waveform (settings st1) = waveform (settings st2)
  /\ clock_ms st1 = clock_ms st2
  /\ audioContext st1 = audioContext st2
  /\ status st1 = status st2
  /\ timers st1 = timers st2
  /\ voices st1 = voices st2.

(** A voice built by [playTone] or by [playNoteInScale] from the given
    settings. *)
Definition built_from (cfg : Settings) (v : Voice) : Prop :=
  (exists now, v = playTone_voice cfg now)
  \/ (exists freq duration now,
        v = playNoteInScale_voice (waveform cfg) freq duration now).

(** The settings are the constants of the template, and every voice is
    built from them. *)
Definition plays_only (cfg : Settings) (st : Page) : Prop :=
  settings st = cfg /\ Forall (built_from cfg) (voices st).

(** What a change of the status display leaves alone. *)
Definition same_but_status (st st' : Page) : Prop :=
  settings st' = settings st /\ clock_ms st' = clock_ms st
  /\ audioContext st' = audioContext st /\ timers st' = timers st
  /\ voices st' = voices st.

(** ** The Streamlit sidebar *)

Record SliderArgs := mkSlider {
  sl_label : string;
  min_value : Q;
  max_value : Q;
  value : Q;
  step : Q
}.

Record SelectboxArgs := mkSelectbox {
  sb_label : string;
  options : list string;
  index : nat
}.

Definition frequency_slider : SliderArgs := mkSlider "Frequency (Hz)" 200 800 440 1.
Definition waveform_selectbox : SelectboxArgs :=
  mkSelectbox "Waveform Type" ["sine"; "square"; "sawtooth"; "triangle"]%string 0.
Definition attack_slider : SliderArgs := mkSlider "Attack (s)" (1#100) 2 (1#10) (1#100).
Definition decay_slider : SliderArgs := mkSlider "Decay (s)" (1#100) 2 (2#10) (1#100).
Definition sustain_slider : SliderArgs := mkSlider "Sustain Level" 0 1 (5#10) (1#100).
Definition release_slider : SliderArgs := mkSlider "Release (s)" (1#100) 3 (3#10) (1#100).

(** The widgets are Streamlit's: what they return in one run of the script
    is a parameter here. *)
Section Sidebar.
Variable slider : SliderArgs -> Q.
Variable selectbox : SelectboxArgs -> string.

Definition sidebar : Settings :=
  {| frequency := slider frequency_slider;
     waveform := selectbox waveform_selectbox;
     attack := slider attack_slider;
     decay := slider decay_slider;
     sustain := slider sustain_slider;
     release := slider release_slider |}.

(** [components.html(audio_component_html, ...)] *)
Definition render : Page := load_page sidebar.
End Sidebar.

(** A slider nobody has touched returns [value]; a select box, the option
    at [index]. *)
Definition untouched_slider (a : SliderArgs) : Q := value a.
Definition untouched_selectbox (a : SelectboxArgs) : string :=
  nth (index a) (options a) EmptyString.

(** A slider dragged to its lower end. *)
Definition lowest_slider (a : SliderArgs) : Q := min_value a.

(** The settings of a page nobody has touched. *)
Definition default_settings : Settings := sidebar untouched_slider untouched_selectbox.

(** ** Parameter domains *)

Definition in_slider_range (a : SliderArgs) (x : Q) : Prop :=
  min_value a <= x <= max_value a.

Record in_slider_domain (cfg : Settings) : Prop := {
  frequency_range : 200 <= frequency cfg <= 800;
  waveform_range : In (waveform cfg) waveform_options;
  attack_range : 1#100 <= attack cfg <= 2;
  decay_range : 1#100 <= decay cfg <= 2;
  sustain_range : 0 <= sustain cfg <= 1;
  release_range : 1#100 <= release cfg <= 3
}.

(** ** The envelope as the specification words it

    [gainAt(envelope, elapsedSeconds, holdSeconds)], stage by stage:
    Attack on [0, A), Decay on [A, A+D), Sustain on [A+D, A+D+hold),
    Release on [A+D+hold, A+D+hold+R), and 0 afterwards; all ramps linear.
    (The [released] flag of the specification's signature is left out: the
    specification gives no rule for it.) *)

Module Spec.

Record EnvelopeParams := mkEnvelope {
  attackSeconds : Q;
  decaySeconds : Q;
  sustainLevel : Q;
  releaseSeconds : Q
}.

Record valid (env : EnvelopeParams) : Prop := {
  valid_attack : 1#100 <= attackSeconds env;
  valid_decay : 1#100 <= decaySeconds env;
  valid_sustain : 0 <= sustainLevel env <= 1;
  valid_release : 1#100 <= releaseSeconds env
}.

Inductive Stage := Attack | Decay | Sustain | Release | Done.

Definition stageAt (env : EnvelopeParams) (elapsedSeconds holdSeconds : Q) : Stage :=
  let A := attackSeconds env in
  let D := decaySeconds env in
  let R := releaseSeconds env in
  if Qle_bool (A + D + holdSeconds + R) elapsedSeconds then Done
  else if Qle_bool (A + D + holdSeconds) elapsedSeconds then Release
  else if Qle_bool (A + D) elapsedSeconds then Sustain
  else if Qle_bool A elapsedSeconds then Decay
  else Attack.

Definition gainAt (env : EnvelopeParams) (elapsedSeconds holdSeconds : Q) : Q :=
  let A := attackSeconds env in
  let D := decaySeconds env in
  let S := sustainLevel env in
  let R := releaseSeconds env in
  match stageAt env elapsedSeconds holdSeconds with
  | Attack => elapsedSeconds / A
  | Decay => 1 + (S - 1) * ((elapsedSeconds - A) / D)
  | Sustain => S
  | Release => S + (0 - S) * ((elapsedSeconds - (A + D + holdSeconds)) / R)
  | Done => 0
  end.

End Spec.

(** The envelope of the session's settings. *)
Definition envelope_of (cfg : Settings) : Spec.EnvelopeParams :=
  Spec.mkEnvelope (attack cfg) (decay cfg) (sustain cfg) (release cfg).

(** The sustain hold of a voice, read off its gain timeline: the time
    between the end of the ramp that reaches the sustain level (the third
    event) and the end of the ramp that holds it (the fourth). *)
Definition holdSeconds (v : Voice) : option Q :=
  match events (gain v) with
  | [_; _; decay_end; hold_end; _] => Some (ev_time hold_end - ev_time decay_end)
  | _ => None
  end.

(** ** Counting what is asked for and what is played *)

Definition is_note (cb : Callback) : bool :=
  match cb with
  | CallPlayNoteInScale _ _ _ => true
  | CallHideStatus => false
  end.

(** The notes that wait in the timer queue. *)
Definition pending_notes (l : list Timer) : nat :=
  List.length (filter (fun tm => is_note (callback tm)) l).

Definition tone_clicks (actions : list UserAction) : nat :=
  List.length (filter (fun a => match a with ClickPlayTone => true | _ => false end)
                      actions).

Definition scale_clicks (actions : list UserAction) : nat :=
  List.length (filter (fun a => match a with ClickPlayScale => true | _ => false end)
                      actions).


(** The texts the status element can be left with: the empty element of the
    markup and the messages of a tone, of a scale and of a note. *)
Definition status_texts : list string :=
  [ EmptyString;
    tone_message;
    "Playing C-Major scale..."%string;
    note_message ].

(** The timer queue is in the order of the due times, and no timer is
    overdue. *)
Fixpoint in_due_order (from : Q) (l : list Timer) : Prop :=
  match l with
  | [] => True
  | tm :: l' => from <= due tm /\ in_due_order (due tm) l'
  end.


(** The delay of the timer that hides the status after a tone. *)
Definition tone_hide_delay (cfg : Settings) : Q :=
  (tone_noteDuration cfg + release cfg) * 1000 + 500.

(** A page on which the scale is playing with its status hidden by hand. *)
Definition hidden_scale_page : Page :=
  hideStatus (playCMajorScale (load_page default_settings)).

(** Without an audio context nothing is pending and nothing has been
    built. *)
Definition untouched (st : Page) : Prop :=
  audioContext st = None -> timers st = [] /\ voices st = [].

(** The notes played and still to play. *)
Definition notes_in_hand (st : Page) : nat :=
  (List.length (voices st) + pending_notes (timers st))%nat.

(** * Properties *)

(** ** Comparisons and interpolation on rationals *)

Lemma Qle_bool_true (a b : Q) : a <= b -> Qle_bool a b = true.
Proof. apply Qle_bool_iff. Qed.

Lemma Qle_bool_false (a b : Q) : b < a -> Qle_bool a b = false.
Proof.
  intro H. destruct (Qle_bool a b) eqn:E; [|reflexivity].
  apply Qle_bool_iff in E. lra.
Qed.

Lemma Qle_bool_cases (a b : Q) :
  (Qle_bool a b = true /\ a <= b) \/ (Qle_bool a b = false /\ b < a).
Proof.
  destruct (Qlt_le_dec b a) as [H|H].
  - right. split; [apply Qle_bool_false|]; assumption.
  - left. split; [apply Qle_bool_true|]; assumption.
Qed.

(** Decide every comparison of the goal that linear arithmetic settles. *)
Ltac qle_bool :=
  repeat match goal with
  | |- context [Qle_bool ?a ?b] =>
      first [ rewrite (Qle_bool_true a b) by lra
            | rewrite (Qle_bool_false a b) by lra ]
  end.

(** Split on the first comparison of the goal, or on a given one. *)
Ltac qle_case H :=
  match goal with
  | |- context [Qle_bool ?a ?b] =>
      destruct (Qle_bool_cases a b) as [[-> H]|[-> H]]
  end.

Ltac qle_case_on a b H := destruct (Qle_bool_cases a b) as [[-> H]|[-> H]].

(** The fraction of a ramp that has elapsed. *)
Lemma ramp_fraction_bounds (t0 t1 t : Q) :
  t0 <= t -> t < t1 -> 0 <= (t - t0) / (t1 - t0) /\ (t - t0) / (t1 - t0) < 1.
Proof.
  intros H0 H1. split.
  - apply Qle_shift_div_l; lra.
  - apply Qlt_shift_div_r; lra.
Qed.

(** ** Timelines *)

Lemma tone_gain_with_hold_events (cfg : Settings) (hold now : Q) :
  0 <= attack cfg -> 0 <= decay cfg -> 0 <= hold -> 0 <= release cfg ->
  events (tone_gain_with_hold cfg hold now) =
  [ mkEvent SetValue 0 now;
    mkEvent LinearRamp 1 (now + attack cfg);
    mkEvent LinearRamp (sustain cfg) (now + attack cfg + decay cfg);
    mkEvent LinearRamp (sustain cfg) (now + (attack cfg + decay cfg + hold));
    mkEvent LinearRamp 0 (now + (attack cfg + decay cfg + hold) + release cfg) ].
Proof.
  intros HA HD HH HR. unfold tone_gain_with_hold, linearRampToValueAtTime,
    setValueAtTime, createGain_gain.
  repeat (cbn [events insert_event ev_time defaultValue]; qle_bool).
  reflexivity.
Qed.

Lemma playTone_gain_hold (cfg : Settings) (now : Q) :
  playTone_gain cfg now = tone_gain_with_hold cfg (1#2) now.
Proof. reflexivity. Qed.

(** The gain timeline of a tone computes the envelope of the specification,
    whatever the hold. *)
Lemma tone_gain_refines_gainAt (cfg : Settings) (hold now t : Q) :
  Spec.valid (envelope_of cfg) -> 0 <= hold -> 0 <= t ->
  value_at (tone_gain_with_hold cfg hold now) (now + t)
  == Spec.gainAt (envelope_of cfg) t hold.
Proof.
  intros [HA HD HS HR] HH Ht. cbn in HA, HD, HS, HR.
  unfold value_at. rewrite tone_gain_with_hold_events by lra.
  unfold Spec.gainAt, Spec.stageAt. cbn [envelope_of Spec.attackSeconds
    Spec.decaySeconds Spec.sustainLevel Spec.releaseSeconds].
  cbn [value_from ev_time ev_value ev_kind].
  set (A := attack cfg) in *. set (D := decay cfg) in *.
  set (R := release cfg) in *.
  qle_case_on (A + D + hold + R) t H1. { qle_bool. reflexivity. }
  qle_case_on (A + D + hold) t H2. { qle_bool. field. lra. }
  qle_case_on (A + D) t H3. { qle_bool. field. lra. }
  qle_case_on A t H4. { qle_bool. field. lra. }
  qle_bool. field. lra.
Qed.

(** ** The envelope, stage by stage *)

Section GainAt.
Variable env : Spec.EnvelopeParams.
Variable hold : Q.
Hypothesis env_valid : Spec.valid env.
Hypothesis hold_nonneg : 0 <= hold.

Let A := Spec.attackSeconds env.
Let D := Spec.decaySeconds env.
Let S := Spec.sustainLevel env.
Let R := Spec.releaseSeconds env.

Ltac gainAt_unfold :=
  destruct env_valid as [HA HD HS HR];
  unfold Spec.gainAt, Spec.stageAt;
  fold A D S R in HA, HD, HS, HR |- *.

Lemma gainAt_attack (t : Q) : 0 <= t -> t < A -> Spec.gainAt env t hold == t / A.
Proof. intros H0 H1. gainAt_unfold. qle_bool. reflexivity. Qed.

Lemma gainAt_decay (t : Q) :
  A <= t -> t < A + D -> Spec.gainAt env t hold == 1 + (S - 1) * ((t - A) / D).
Proof. intros H0 H1. gainAt_unfold. qle_bool. reflexivity. Qed.

Lemma gainAt_sustain (t : Q) :
  A + D <= t -> t <= A + D + hold -> Spec.gainAt env t hold == S.
Proof.
  intros H0 H1. gainAt_unfold.
  rewrite (Qle_bool_false (A + D + hold + R) t) by lra.
  qle_case H2; [|qle_bool; reflexivity].
  assert (E : t - (A + D + hold) == 0) by lra.
  rewrite E. field. lra.
Qed.

Lemma gainAt_release (t : Q) :
  A + D + hold <= t -> t < A + D + hold + R ->
  Spec.gainAt env t hold == S + (0 - S) * ((t - (A + D + hold)) / R).
Proof. intros H0 H1. gainAt_unfold. qle_bool. reflexivity. Qed.

Lemma gainAt_done (t : Q) : A + D + hold + R <= t -> Spec.gainAt env t hold == 0.
Proof. intros H0. gainAt_unfold. qle_bool. reflexivity. Qed.

Lemma gainAt_start : Spec.gainAt env 0 hold == 0.
Proof.
  destruct env_valid as [HA HD HS HR]. fold A D S R in HA, HD, HS, HR.
  rewrite gainAt_attack by lra. field. lra.
Qed.

Lemma gainAt_peak : Spec.gainAt env A hold == 1.
Proof.
  destruct env_valid as [HA HD HS HR]. fold A D S R in HA, HD, HS, HR.
  rewrite gainAt_decay by lra. field. lra.
Qed.

End GainAt.

(** ** Timelines as functions of time *)

Lemma value_from_time_compat (l : list Event) (v0 t0 t t' : Q) :
  t == t' -> value_from v0 t0 l t == value_from v0 t0 l t'.
Proof.
  intro E. revert v0 t0. induction l as [|e l IH]; intros v0 t0; cbn.
  - reflexivity.
  - rewrite E at 1. destruct (Qle_bool (ev_time e) t').
    + apply IH.
    + destruct (ev_kind e); [reflexivity|]. rewrite E. reflexivity.
Qed.

Lemma value_at_time_compat (p : AudioParam.t) (t t' : Q) :
  t == t' -> value_at p t == value_at p t'.
Proof.
  intro E. unfold value_at. destruct (events p) as [|e l]; [reflexivity|].
  rewrite E at 1. destruct (Qle_bool (ev_time e) t'); [|reflexivity].
  apply value_from_time_compat, E.
Qed.

Lemma gain_at_time_compat (v : Voice) (t t' : Q) :
  t == t' -> gain_at v t == gain_at v t'.
Proof. apply value_at_time_compat. Qed.

Lemma in_slider_domain_valid (cfg : Settings) :
  in_slider_domain cfg -> Spec.valid (envelope_of cfg).
Proof. intros [_ _ HA HD HS HR]. split; cbn; lra. Qed.

(** The gain of a tone, [t] seconds after its start. *)
Lemma playTone_gain_at (cfg : Settings) (now t : Q) :
  in_slider_domain cfg -> 0 <= t ->
  gain_at (playTone_voice cfg now) (now + t)
  == Spec.gainAt (envelope_of cfg) t (1#2).
Proof.
  intros Hdom Ht. unfold gain_at. cbn [gain playTone_voice].
  rewrite playTone_gain_hold.
  apply tone_gain_refines_gainAt; [apply in_slider_domain_valid, Hdom|lra|exact Ht].
Qed.

(** ** The page operations *)

Lemma initAudioContext_currentTime (st : Page) :
  exists now, currentTime (initAudioContext st) = Some now.
Proof.
  unfold initAudioContext, currentTime.
  destruct (audioContext st) as [origin|] eqn:E.
  - rewrite E. eexists. reflexivity.
  - cbn. eexists. reflexivity.
Qed.

Lemma initAudioContext_frame (st : Page) :
  settings (initAudioContext st) = settings st
  /\ clock_ms (initAudioContext st) = clock_ms st
  /\ timers (initAudioContext st) = timers st
  /\ voices (initAudioContext st) = voices st.
Proof.
  unfold initAudioContext. destruct (audioContext st); cbn; repeat split.
Qed.

Lemma playTone_unfold (st : Page) (now : Q) :
  currentTime (initAudioContext st) = Some now ->
  exists st',
    playTone st = Some st'
    /\ voices st' = voices st ++ [playTone_voice (settings st) now]
    /\ status st' = mkStatus tone_message true
    /\ settings st' = settings st.
Proof.
  intro E. unfold playTone. rewrite E.
  destruct (initAudioContext_frame st) as (Hs & Hc & Ht & Hv).
  eexists. split; [reflexivity|]. cbn. rewrite Hs, Hv. repeat split.
Qed.

(** C1. For settings in the slider domains, playTone builds one note whose
    gain is 0 at its start, 1 after the attack, the sustain level from the
    end of the decay through the 0.5 s hold, and 0 after the release, which
    is when the oscillator stops; with attack 0.1, decay 0.2 and release 0.3
    the note lasts 1.1 s. *)
Theorem playTone_single_note_envelope (st : Page) :
  in_slider_domain (settings st) ->
  exists st' now,
    playTone st = Some st'
    /\ currentTime (initAudioContext st) = Some now
    /\ let cfg := settings st in
       let v := playTone_voice cfg now in
       let total := attack cfg + decay cfg + (1#2) + release cfg in
       voices st' = voices st ++ [v]
       /\ gain_at v now == 0
       /\ gain_at v (now + attack cfg) == 1
       /\ (forall t, attack cfg + decay cfg <= t <= attack cfg + decay cfg + (1#2) ->
             gain_at v (now + t) == sustain cfg)
       /\ gain_at v (now + total) == 0
       /\ start_time v = Some now
       /\ (exists stop, stop_time v = Some stop /\ stop == now + total)
       /\ (forall t, now + total <= t -> sounding v t = false)
       /\ (attack cfg == 1#10 -> decay cfg == 2#10 -> release cfg == 3#10 ->
           exists d, audible_duration v = Some d /\ d == 11#10).
Proof.
  intro Hdom.
  destruct (initAudioContext_currentTime st) as [now Hnow].
  destruct (playTone_unfold st now Hnow) as (st' & Hplay & Hvoices & _).
  exists st', now. split; [exact Hplay|]. split; [exact Hnow|].
  pose proof (in_slider_domain_valid _ Hdom) as Hvalid.
  destruct Hdom as [HF HW HA HD HS HR].
  cbv zeta. split; [exact Hvoices|].
  assert (Hdom : in_slider_domain (settings st)) by (split; assumption).
  split.
  { rewrite (gain_at_time_compat _ now (now + 0)) by lra.
    rewrite playTone_gain_at by (assumption || lra).
    apply gainAt_start; [assumption|lra]. }
  split.
  { rewrite playTone_gain_at by (assumption || lra).
    apply (gainAt_peak (envelope_of (settings st))); [assumption|lra]. }
  split.
  { intros t [Ht0 Ht1]. rewrite playTone_gain_at by (assumption || lra).
    apply gainAt_sustain; cbn; (assumption || lra). }
  split.
  { rewrite playTone_gain_at by (assumption || lra).
    apply gainAt_done; cbn; (assumption || lra). }
  split; [reflexivity|]. split.
  { eexists. split; [reflexivity|]. unfold tone_noteDuration. lra. }
  split.
  { intros t Ht. unfold sounding. cbn [start_time stop_time playTone_voice].
    unfold tone_noteDuration. rewrite (Qle_bool_true (now + _ + _) t) by lra.
    apply andb_false_r. }
  intros EA ED ER. eexists. split; [reflexivity|].
  unfold tone_noteDuration. lra.
Qed.

(** ** The scale: its timers and its voices *)

Lemma playCMajorScale_timers (st : Page) :
  timers st = [] ->
  timers (playCMajorScale st) =
  [ note_timer (clock_ms st) 0 (26163 # 100);
    note_timer (clock_ms st) 1 (29366 # 100);
    note_timer (clock_ms st) 2 (32963 # 100);
    note_timer (clock_ms st) 3 (34923 # 100);
    note_timer (clock_ms st) 4 (39200 # 100);
    note_timer (clock_ms st) 5 (44000 # 100);
    note_timer (clock_ms st) 6 (49388 # 100);
    note_timer (clock_ms st) 7 (52325 # 100);
    mkTimer (clock_ms st + (Q_of_nat 8 * scale_noteDuration * 1000 + 500)) CallHideStatus ].
Proof.
  intro Hidle. destruct (initAudioContext_frame st) as (Hs & Hc & Ht & Hv).
  unfold playCMajorScale, cMajorScale.
  cbn [forEach schedule_note setTimeout showStatus set_status set_timers
       timers clock_ms List.length].
  rewrite Hc, Ht, Hidle. unfold note_timer, scale_noteDuration, Q_of_nat.
  cbn [Z.of_nat Pos.of_succ_nat Pos.succ]. unfold inject_Z.
  repeat (cbn [insert_timer due]; qle_bool).
  reflexivity.
Qed.


Lemma page_eta (st : Page) :
  st = mkPage (settings st) (clock_ms st) (audioContext st) (status st)
              (timers st) (voices st).
Proof. destruct st. reflexivity. Qed.

Lemma setTimeout_frame (cb : Callback) (delay : Q) (st : Page) :
  same_but_timers st (setTimeout cb delay st).
Proof. repeat split. Qed.

Lemma same_but_timers_trans (a b c : Page) :
  same_but_timers a b -> same_but_timers b c -> same_but_timers a c.
Proof.
  intros (H1 & H2 & H3 & H4 & H5) (K1 & K2 & K3 & K4 & K5).
  repeat split; congruence.
Qed.

Lemma forEach_schedule_note_frame (l : list Q) (index : nat) (st : Page) :
  same_but_timers st (forEach schedule_note l index st).
Proof.
  revert index st. induction l as [|freq l IH]; intros index st; cbn [forEach].
  - repeat split.
  - eapply same_but_timers_trans; [|apply IH]. apply setTimeout_frame.
Qed.

Lemma playCMajorScale_page (st : Page) :
  playCMajorScale st =
  {| settings := settings st;
     clock_ms := clock_ms st;
     audioContext := Some (context_origin st);
     status := mkStatus "Playing C-Major scale..." true;
     timers := timers (playCMajorScale st);
     voices := voices st |}.
Proof.
  rewrite (page_eta (playCMajorScale st)) at 1.
  assert (H : same_but_timers (showStatus "Playing C-Major scale..." (initAudioContext st))
                              (playCMajorScale st)).
  { unfold playCMajorScale.
    eapply same_but_timers_trans; [apply forEach_schedule_note_frame|].
    apply setTimeout_frame. }
  destruct H as (H1 & H2 & H3 & H4 & H5). rewrite H1, H2, H3, H4, H5.
  unfold context_origin, initAudioContext.
  destruct st as [cfg clock ctx sts tms vs]. cbn [audioContext clock_ms].
  destruct ctx; reflexivity.
Qed.

Lemma run_cons (n : nat) (st : Page) (tm : Timer) (rest : list Timer) :
  timers st = tm :: rest -> run (S n) st = run n (fire tm (set_timers rest st)).
Proof. intro E. cbn [run]. rewrite E. reflexivity. Qed.

Lemma later_le (a b : Q) : a <= b -> later a b = b.
Proof. intro H. unfold later. rewrite Qle_bool_true by exact H. reflexivity. Qed.

Lemma fire_note (cfg : Settings) (clock origin : Q) (sts : StatusElement)
  (rest pending : list Timer) (vs : list Voice)
  (at_ms freq duration : Q) (noteName : string) :
  fire (mkTimer at_ms (CallPlayNoteInScale freq duration noteName))
       (set_timers rest (mkPage cfg clock (Some origin) sts pending vs))
  = mkPage cfg (later clock at_ms) (Some origin)
           (updateStatus_element note_message sts) rest
           (vs ++ [playNoteInScale_voice (waveform cfg) freq duration
                     ((later clock at_ms - origin) / 1000)]).
Proof. reflexivity. Qed.

Lemma fire_hide (cfg : Settings) (clock : Q) (ctx : option Q) (sts : StatusElement)
  (rest pending : list Timer) (vs : list Voice) (at_ms : Q) :
  fire (mkTimer at_ms CallHideStatus)
       (set_timers rest (mkPage cfg clock ctx sts pending vs))
  = mkPage cfg (later clock at_ms) ctx (hideStatus_element sts) rest vs.
Proof. reflexivity. Qed.

Ltac scale_arith :=
  unfold scale_noteDuration, Q_of_nat;
  cbn [Z.of_nat Pos.of_succ_nat Pos.succ]; unfold inject_Z; lra.

Ltac note_step :=
  erewrite run_cons by (cbn [timers]; reflexivity);
  unfold note_timer at 1; rewrite fire_note;
  rewrite later_le by scale_arith;
  cbn [updateStatus_element active].

Lemma playCMajorScale_run (st : Page) :
  timers st = [] ->
  run_to_completion (playCMajorScale st) =
  {| settings := settings st;
     clock_ms := clock_ms st + (Q_of_nat 8 * scale_noteDuration * 1000 + 500);
     audioContext := Some (context_origin st);
     status := mkStatus note_message false;
     timers := [];
     voices := voices st ++
       [ scale_note st 0 (26163 # 100);
         scale_note st 1 (29366 # 100);
         scale_note st 2 (32963 # 100);
         scale_note st 3 (34923 # 100);
         scale_note st 4 (39200 # 100);
         scale_note st 5 (44000 # 100);
         scale_note st 6 (49388 # 100);
         scale_note st 7 (52325 # 100) ] |}.
Proof.
  intro Hidle. unfold run_to_completion.
  rewrite (playCMajorScale_page st), (playCMajorScale_timers st Hidle).
  cbn [List.length timers].
  do 8 note_step.
  erewrite run_cons by (cbn [timers]; reflexivity). rewrite fire_hide.
  rewrite later_le by scale_arith.
  cbn [run hideStatus_element textContent].
  repeat rewrite <- app_assoc. cbn [app].
  reflexivity.
Qed.

(** ** Timelines of ramps: range and slope *)

Lemma lerp_between (lo hi v0 v1 k : Q) :
  lo <= v0 <= hi -> lo <= v1 <= hi -> 0 <= k <= 1 ->
  lo <= v0 + (v1 - v0) * k <= hi.
Proof. intros H0 H1 Hk. split; nra. Qed.

Lemma ramp_step_bound (slope a d x : Q) :
  0 < d -> 0 <= x ->
  - (slope * d) <= a <= slope * d ->
  - (slope * x) <= a * (x / d) <= slope * x.
Proof.
  intros Hd Hx Ha.
  assert (Hk : 0 <= x / d) by (apply Qle_shift_div_l; lra).
  assert (E : slope * x == slope * d * (x / d)) by (field; lra).
  rewrite E. split; nra.
Qed.

Lemma value_from_between (lo hi : Q) (l : list Event) (v0 t0 t : Q) :
  lo <= v0 <= hi -> Forall (fun e => lo <= ev_value e <= hi) l ->
  ascending t0 l -> t0 <= t ->
  lo <= value_from v0 t0 l t <= hi.
Proof.
  revert v0 t0. induction l as [|e l IH]; intros v0 t0 Hv Hall Hasc Ht;
    cbn [value_from]; [exact Hv|].
  inversion Hall as [|e' l' He Hl]; subst. destruct Hasc as [Hte Hasc].
  qle_case Hcmp.
  - apply IH; assumption.
  - destruct (ev_kind e); [exact Hv|].
    apply lerp_between; [assumption|assumption|].
    destruct (ramp_fraction_bounds t0 (ev_time e) t Ht Hcmp). lra.
Qed.

Lemma value_from_drift (slope : Q) (l : list Event) (v0 t0 t : Q) :
  0 <= slope -> ramps_within slope v0 t0 l -> t0 <= t ->
  - (slope * (t - t0)) <= value_from v0 t0 l t - v0 <= slope * (t - t0).
Proof.
  intro Hs. revert v0 t0. induction l as [|e l IH]; intros v0 t0 Hr Ht;
    cbn [value_from].
  - split; nra.
  - destruct Hr as (Hk & Hte & Hv & Hr). qle_case Hcmp.
    + specialize (IH _ _ Hr Hcmp). lra.
    + rewrite Hk.
      assert (H := ramp_step_bound slope (ev_value e - v0) (ev_time e - t0) (t - t0)).
      lapply H; [clear H; intro H|lra]. lapply H; [clear H; intro H|lra].
      specialize (H Hv). lra.
Qed.

Lemma value_from_lipschitz (slope : Q) (l : list Event) (v0 t0 t t' : Q) :
  0 <= slope -> ramps_within slope v0 t0 l -> t0 <= t -> t <= t' ->
  - (slope * (t' - t)) <= value_from v0 t0 l t' - value_from v0 t0 l t
  <= slope * (t' - t).
Proof.
  intro Hs. revert v0 t0. induction l as [|e l IH]; intros v0 t0 Hr Ht Htt;
    cbn [value_from].
  - split; nra.
  - destruct Hr as (Hk & Hte & Hv & Hr).
    destruct (Qle_bool_cases (ev_time e) t) as [[-> Hc]|[-> Hc]].
    + rewrite (Qle_bool_true (ev_time e) t') by lra. apply IH; assumption.
    + rewrite Hk.
      assert (Hleft := ramp_step_bound slope (ev_value e - v0) (ev_time e - t0)).
      destruct (Qle_bool_cases (ev_time e) t') as [[-> Hc']|[-> Hc']].
      * pose proof (value_from_drift slope l _ _ t' Hs Hr Hc') as Hd.
        assert (Hrest : - (slope * (ev_time e - t)) <=
                        ev_value e - (v0 + (ev_value e - v0) * ((t - t0) / (ev_time e - t0)))
                        <= slope * (ev_time e - t)).
        { assert (E : ev_value e - (v0 + (ev_value e - v0) * ((t - t0) / (ev_time e - t0)))
                      == (ev_value e - v0) * ((ev_time e - t) / (ev_time e - t0)))
            by (field; lra).
          rewrite E. apply ramp_step_bound; lra. }
        lra.
      * assert (E : v0 + (ev_value e - v0) * ((t' - t0) / (ev_time e - t0))
                    - (v0 + (ev_value e - v0) * ((t - t0) / (ev_time e - t0)))
                    == (ev_value e - v0) * ((t' - t) / (ev_time e - t0)))
          by (field; lra).
        rewrite E. apply ramp_step_bound; lra.
Qed.

(** ** The envelope on the closed stages, and its direction *)

Section GainAtClosed.
Variable env : Spec.EnvelopeParams.
Variable hold : Q.
Hypothesis env_valid : Spec.valid env.
Hypothesis hold_nonneg : 0 <= hold.

Let A := Spec.attackSeconds env.
Let D := Spec.decaySeconds env.
Let S := Spec.sustainLevel env.
Let R := Spec.releaseSeconds env.

Ltac gainAt_bounds :=
  destruct env_valid as [HA HD HS HR]; fold A D S R in HA, HD, HS, HR.

Lemma gainAt_attack_closed (t : Q) :
  0 <= t -> t <= A -> Spec.gainAt env t hold == t / A.
Proof.
  intros H0 H1. gainAt_bounds. destruct (Qlt_le_dec t A) as [Hlt|Hge].
  - apply gainAt_attack; assumption.
  - rewrite gainAt_decay by (assumption || (fold A D; lra)). fold A D S.
    assert (E : t == A) by lra. rewrite E. field. lra.
Qed.

Lemma gainAt_decay_closed (t : Q) :
  A <= t -> t <= A + D -> Spec.gainAt env t hold == 1 + (S - 1) * ((t - A) / D).
Proof.
  intros H0 H1. gainAt_bounds. destruct (Qlt_le_dec t (A + D)) as [Hlt|Hge].
  - apply gainAt_decay; assumption.
  - rewrite gainAt_sustain by (assumption || (fold A D; lra)). fold A D S.
    assert (E : t == A + D) by lra. rewrite E. field. lra.
Qed.

Lemma gainAt_release_closed (t : Q) :
  A + D + hold <= t -> t <= A + D + hold + R ->
  Spec.gainAt env t hold == S + (0 - S) * ((t - (A + D + hold)) / R).
Proof.
  intros H0 H1. gainAt_bounds. destruct (Qlt_le_dec t (A + D + hold + R)) as [Hlt|Hge].
  - apply gainAt_release; assumption.
  - rewrite gainAt_done by (assumption || (fold A D R; lra)).
    assert (E : t == A + D + hold + R) by lra. rewrite E. field. lra.
Qed.

Lemma gainAt_attack_rises (t t' : Q) :
  0 <= t -> t <= t' -> t' <= A ->
  Spec.gainAt env t hold <= Spec.gainAt env t' hold.
Proof.
  intros H0 H1 H2. gainAt_bounds.
  rewrite !gainAt_attack_closed by (fold A; lra).
  unfold Qdiv. apply Qmult_le_compat_r; [exact H1|].
  apply Qlt_le_weak, Qinv_lt_0_compat. lra.
Qed.

Lemma gainAt_decay_falls (t t' : Q) :
  A <= t -> t <= t' -> t' <= A + D ->
  Spec.gainAt env t' hold <= Spec.gainAt env t hold.
Proof.
  intros H0 H1 H2. gainAt_bounds.
  rewrite !gainAt_decay_closed by (fold A D; lra).
  assert (Hm : (t - A) / D <= (t' - A) / D).
  { unfold Qdiv. apply Qmult_le_compat_r; [lra|].
    apply Qlt_le_weak, Qinv_lt_0_compat. lra. }
  nra.
Qed.

Lemma gainAt_release_falls (t t' : Q) :
  A + D + hold <= t -> t <= t' ->
  Spec.gainAt env t' hold <= Spec.gainAt env t hold.
Proof.
  intros H0 H1. gainAt_bounds.
  destruct (Qlt_le_dec (A + D + hold + R) t') as [Hafter|Hin].
  - rewrite (gainAt_done env hold env_valid t') by (fold A D R; lra).
    destruct (Qlt_le_dec (A + D + hold + R) t) as [Hafter'|Hin'].
    + rewrite (gainAt_done env hold env_valid t) by (fold A D R; lra). lra.
    + rewrite gainAt_release_closed by lra.
      assert (Hk : (t - (A + D + hold)) / R <= 1).
      { apply Qle_shift_div_r; lra. }
      nra.
  - rewrite !gainAt_release_closed by lra.
    assert (Hm : (t - (A + D + hold)) / R <= (t' - (A + D + hold)) / R).
    { unfold Qdiv. apply Qmult_le_compat_r; [lra|].
      apply Qlt_le_weak, Qinv_lt_0_compat. lra. }
    nra.
Qed.

End GainAtClosed.

(** ** The gain of a tone: range and slope *)

Lemma lipschitz_abs (f : Q -> Q) (slope t0 : Q) :
  (forall t t', t0 <= t -> t <= t' ->
     - (slope * (t' - t)) <= f t' - f t <= slope * (t' - t)) ->
  forall t t', t0 <= t -> t0 <= t' ->
    Qabs (f t' - f t) <= slope * Qabs (t' - t).
Proof.
  intros H t t' Ht Ht'. apply Qabs_Qle_condition.
  destruct (Qlt_le_dec t' t) as [Hlt|Hle].
  - rewrite (Qabs_neg (t' - t)) by lra.
    specialize (H t' t Ht' (Qlt_le_weak _ _ Hlt)). lra.
  - rewrite (Qabs_pos (t' - t)) by lra.
    specialize (H t t' Ht Hle). lra.
Qed.

Section ToneGain.
Variable cfg : Settings.
Variables hold now : Q.
Hypothesis cfg_valid : Spec.valid (envelope_of cfg).
Hypothesis hold_nonneg : 0 <= hold.

Let G := tone_gain_with_hold cfg hold now.

Lemma tone_gain_value_at (t : Q) :
  now <= t -> value_at G t = value_from 0 now (tl (events G)) t.
Proof.
  intro Ht. destruct cfg_valid as [HA HD HS HR]. cbn in HA, HD, HS, HR.
  unfold value_at, G. rewrite tone_gain_with_hold_events by lra.
  cbn [ev_time ev_value tl]. rewrite Qle_bool_true by exact Ht. reflexivity.
Qed.

Lemma tone_gain_ramps : ramps_within 100 0 now (tl (events G)).
Proof.
  destruct cfg_valid as [HA HD HS HR]. cbn in HA, HD, HS, HR.
  unfold G. rewrite tone_gain_with_hold_events by lra.
  cbn [tl ramps_within ev_kind ev_time ev_value].
  repeat split; lra.
Qed.

Lemma tone_gain_between (t : Q) : 0 <= value_at G t <= 1.
Proof.
  destruct (Qlt_le_dec t now) as [Hbefore|Hafter].
  - destruct cfg_valid as [HA HD HS HR]. cbn in HA, HD, HS, HR.
    unfold value_at, G. rewrite tone_gain_with_hold_events by lra.
    cbn [ev_time]. rewrite Qle_bool_false by exact Hbefore.
    cbn. lra.
  - rewrite tone_gain_value_at by exact Hafter.
    destruct cfg_valid as [HA HD HS HR]. cbn in HA, HD, HS, HR.
    unfold G. rewrite tone_gain_with_hold_events by lra. cbn [tl].
    apply value_from_between; [lra| |cbn; repeat split; lra|exact Hafter].
    repeat constructor; cbn; lra.
Qed.

Lemma tone_gain_lipschitz (t t' : Q) :
  now <= t -> now <= t' ->
  Qabs (value_at G t' - value_at G t) <= 100 * Qabs (t' - t).
Proof.
  intros Ht Ht'.
  apply (lipschitz_abs (value_at G) 100 now); [|exact Ht|exact Ht'].
  intros u u' Hu Huu'. rewrite !tone_gain_value_at by lra.
  apply value_from_lipschitz; [lra|apply tone_gain_ramps|exact Hu|exact Huu'].
Qed.

End ToneGain.

(** ** Claims on the single tone *)

Lemma default_settings_in_domain : in_slider_domain default_settings.
Proof.
  split; cbn; try lra. left. reflexivity.
Qed.

Lemma playTone_single_note_envelope_witness :
  in_slider_domain (settings (load_page default_settings))
  /\ exists st' now,
       playTone (load_page default_settings) = Some st'
       /\ currentTime (initAudioContext (load_page default_settings)) = Some now.
Proof.
  assert (H : in_slider_domain (settings (load_page default_settings)))
    by (split; cbn; try lra; left; reflexivity).
  split; [exact H|].
  destruct (playTone_single_note_envelope (load_page default_settings) H)
    as (st' & now & H1 & H2 & _).
  exists st', now. split; assumption.
Defined.

Lemma parse_type_options (w : string) :
  In w waveform_options -> exists ty, parse_type w = Some ty.
Proof.
  intros [<-|[<-|[<-|[<-|[]]]]]; eexists; reflexivity.
Qed.

Lemma voice_frequency_set (f now t : Q) :
  now <= t ->
  value_at (setValueAtTime f now createOscillator_frequency) t = f.
Proof.
  intro H. unfold value_at, setValueAtTime, createOscillator_frequency.
  cbn [events insert_event ev_time ev_value value_from].
  rewrite Qle_bool_true by exact H. reflexivity.
Qed.

Lemma playTone_gain_events (cfg : Settings) (now : Q) :
  in_slider_domain cfg ->
  events (playTone_gain cfg now) =
  [ mkEvent SetValue 0 now;
    mkEvent LinearRamp 1 (now + attack cfg);
    mkEvent LinearRamp (sustain cfg) (now + attack cfg + decay cfg);
    mkEvent LinearRamp (sustain cfg) (now + tone_noteDuration cfg);
    mkEvent LinearRamp 0 (now + tone_noteDuration cfg + release cfg) ].
Proof.
  intros [_ _ HA HD HS HR]. rewrite playTone_gain_hold.
  rewrite tone_gain_with_hold_events by lra. reflexivity.
Qed.

(** C2, as stated, fails: the note of the default settings is held for
    0.5 s, not for attack + decay + 0.5 = 0.8 s.  With a hold of 0.8 s the
    envelope would still be at the sustain level 1.1 s after the start,
    where the gain of the note has reached 0. *)
Lemma single_tone_hold_is_not_noteDuration :
  exists st' v h,
    playTone (load_page default_settings) = Some st'
    /\ voices st' = [v]
    /\ start_time v = Some ((0 - 0) / 1000)
    /\ holdSeconds v = Some h
    /\ h == 1#2
    /\ ~ h == attack default_settings + decay default_settings + (1#2)
    /\ gain_at v (11#10) == 0
    /\ ~ Spec.gainAt (envelope_of default_settings) (11#10)
          (attack default_settings + decay default_settings + (1#2)) == 0.
Proof.
  eexists. eexists. eexists.
  split; [reflexivity|]. split; [reflexivity|]. split; [reflexivity|].
  split; [vm_compute; reflexivity|]. split; [reflexivity|].
  split; [intro H; vm_compute in H; discriminate H|].
  split; [vm_compute; reflexivity|].
  intro H; vm_compute in H; discriminate H.
Qed.

(** C2, amended. A click on "Play Tone" creates exactly one note, starting
    at the click, with the configured waveform, frequency and envelope; its
    sustain hold is the fixed 0.5 s, and its release starts noteDuration =
    attack + decay + 0.5 after the start. *)
Theorem playTone_one_note_hold_half (st : Page) :
  in_slider_domain (settings st) ->
  exists st' now v,
    playTone st = Some st'
    /\ currentTime (initAudioContext st) = Some now
    /\ voices st' = voices st ++ [v]
    /\ let cfg := settings st in
       start_time v = Some now
       /\ parse_type (waveform cfg) = Some (osc_type v)
       /\ (forall t, now <= t -> voice_frequency v t = frequency cfg)
       /\ (forall t, 0 <= t ->
             gain_at v (now + t) == Spec.gainAt (envelope_of cfg) t (1#2))
       /\ (exists h, holdSeconds v = Some h /\ h == 1#2)
       /\ nth_error (events (gain v)) 4
          = Some (mkEvent LinearRamp 0 (now + tone_noteDuration cfg + release cfg))
       /\ nth_error (events (gain v)) 3
          = Some (mkEvent LinearRamp (sustain cfg) (now + tone_noteDuration cfg))
       /\ tone_noteDuration cfg == attack cfg + decay cfg + (1#2).
Proof.
  intro Hdom.
  destruct (initAudioContext_currentTime st) as [now Hnow].
  destruct (playTone_unfold st now Hnow) as (st' & Hplay & Hvoices & _).
  exists st', now, (playTone_voice (settings st) now).
  split; [exact Hplay|]. split; [exact Hnow|]. split; [exact Hvoices|].
  cbv zeta. split; [reflexivity|]. split.
  { destruct (parse_type_options _ (waveform_range _ Hdom)) as [ty Hty].
    cbn [osc_type playTone_voice]. unfold set_type. rewrite Hty. reflexivity. }
  split.
  { intros t Ht. unfold voice_frequency. cbn [osc_frequency playTone_voice].
    apply voice_frequency_set, Ht. }
  split.
  { intros t Ht. apply playTone_gain_at; assumption. }
  split.
  { unfold holdSeconds. cbn [gain playTone_voice].
    rewrite playTone_gain_events by exact Hdom. cbn [ev_time].
    eexists. split; [reflexivity|]. unfold tone_noteDuration. lra. }
  cbn [gain playTone_voice]. rewrite playTone_gain_events by exact Hdom.
  split; [reflexivity|]. split; [reflexivity|]. reflexivity.
Qed.

Lemma playTone_one_note_hold_half_witness :
  in_slider_domain (settings (load_page default_settings))
  /\ exists st' v,
       playTone (load_page default_settings) = Some st'
       /\ voices st' = voices (load_page default_settings) ++ [v].
Proof.
  assert (H : in_slider_domain (settings (load_page default_settings)))
    by (split; cbn; try lra; left; reflexivity).
  split; [exact H|].
  destruct (playTone_one_note_hold_half (load_page default_settings) H)
    as (st' & now & v & H1 & _ & H3 & _).
  exists st', v. split; assumption.
Defined.

(** C6. For every valid envelope and every hold of at least 0, the gain of
    a tone is 0 at its start and from the end of the release on, rises
    through the attack, falls through the decay and the release, and is
    continuous: it never changes faster than 100 per second. *)
Theorem tone_envelope_shape (cfg : Settings) (hold now : Q) :
  Spec.valid (envelope_of cfg) -> 0 <= hold ->
  let g := fun t => value_at (tone_gain_with_hold cfg hold now) (now + t) in
  let A := attack cfg in
  let D := decay cfg in
  let R := release cfg in
  g 0 == 0
  /\ (forall t, A + D + hold + R <= t -> g t == 0)
  /\ (forall t t', 0 <= t -> t <= t' -> t' <= A -> g t <= g t')
  /\ (forall t t', A <= t -> t <= t' -> t' <= A + D -> g t' <= g t)
  /\ (forall t t', A + D + hold <= t -> t <= t' -> g t' <= g t)
  /\ (forall t t', 0 <= t -> 0 <= t' -> Qabs (g t' - g t) <= 100 * Qabs (t' - t))
  /\ (forall t eps, 0 <= t -> 0 < eps ->
        exists delta, 0 < delta /\
          forall t', 0 <= t' -> Qabs (t' - t) < delta -> Qabs (g t' - g t) < eps)
  /\ playTone_gain cfg now = tone_gain_with_hold cfg (1#2) now.
Proof.
  intros Hvalid Hhold. cbv zeta.
  pose proof Hvalid as [HA HD HS HR]. cbn in HA, HD, HS, HR.
  assert (Hlip : forall t t', 0 <= t -> 0 <= t' ->
            Qabs (value_at (tone_gain_with_hold cfg hold now) (now + t')
                  - value_at (tone_gain_with_hold cfg hold now) (now + t))
            <= 100 * Qabs (t' - t)).
  { intros t t' Ht Ht'.
    assert (E : t' - t == now + t' - (now + t)) by lra. rewrite E.
    apply tone_gain_lipschitz; (assumption || lra). }
  split.
  { rewrite tone_gain_refines_gainAt by (assumption || lra).
    apply gainAt_start; assumption. }
  split.
  { intros t Ht. rewrite tone_gain_refines_gainAt by (assumption || lra).
    apply gainAt_done; cbn; assumption. }
  split.
  { intros t t' H0 H1 H2. rewrite !tone_gain_refines_gainAt by (assumption || lra).
    apply gainAt_attack_rises; cbn; assumption. }
  split.
  { intros t t' H0 H1 H2. rewrite !tone_gain_refines_gainAt by (assumption || lra).
    apply gainAt_decay_falls; cbn; assumption. }
  split.
  { intros t t' H0 H1. rewrite !tone_gain_refines_gainAt by (assumption || lra).
    apply gainAt_release_falls; cbn; assumption. }
  split; [exact Hlip|]. split; [|reflexivity].
  intros t eps Ht Heps. exists (eps / 100). split.
  { apply Qlt_shift_div_l; lra. }
  intros t' Ht' Hnear.
  apply Qle_lt_trans with (100 * Qabs (t' - t)); [apply Hlip; assumption|].
  assert (E : eps == 100 * (eps / 100)) by (field; lra).
  rewrite E. lra.
Qed.

Lemma tone_envelope_shape_witness :
  Spec.valid (envelope_of default_settings) /\ 0 <= 1#2
  /\ value_at (tone_gain_with_hold default_settings (1#2) 0) (0 + 0) == 0.
Proof.
  assert (H1 : Spec.valid (envelope_of default_settings))
    by (split; cbn; lra).
  assert (H2 : 0 <= 1#2) by lra.
  split; [exact H1|]. split; [exact H2|].
  exact (proj1 (tone_envelope_shape default_settings (1#2) 0 H1 H2)).
Defined.

(** C9. The gain of a tone with settings in the slider domains stays in
    [0, 1]; the times of its timeline increase strictly, by the attack, the
    decay, the 0.5 s hold and the release; the ramp that ends the decay and
    the ramp that holds the plateau both end at the sustain level; and the
    gain makes no jump: it never changes faster than 100 per second. *)
Theorem playTone_gain_well_formed (cfg : Settings) (now : Q) :
  in_slider_domain cfg ->
  let v := playTone_voice cfg now in
  let A := attack cfg in
  let D := decay cfg in
  let S := sustain cfg in
  let R := release cfg in
  (forall t, 0 <= gain_at v t <= 1)
  /\ events (gain v) =
     [ mkEvent SetValue 0 now;
       mkEvent LinearRamp 1 (now + A);
       mkEvent LinearRamp S (now + A + D);
       mkEvent LinearRamp S (now + tone_noteDuration cfg);
       mkEvent LinearRamp 0 (now + tone_noteDuration cfg + R) ]
  /\ tone_noteDuration cfg == A + D + (1#2)
  /\ (0 < A /\ A < A + D /\ A + D < A + D + (1#2)
      /\ A + D + (1#2) < A + D + (1#2) + R)
  /\ (now < now + A /\ now + A < now + A + D
      /\ now + A + D < now + tone_noteDuration cfg
      /\ now + tone_noteDuration cfg < now + tone_noteDuration cfg + R)
  /\ gain_at v (now + A + D) == S
  /\ gain_at v (now + tone_noteDuration cfg) == S
  /\ (forall t t', now <= t -> now <= t' ->
        Qabs (gain_at v t' - gain_at v t) <= 100 * Qabs (t' - t)).
Proof.
  intro Hdom. cbv zeta.
  pose proof (in_slider_domain_valid _ Hdom) as Hvalid.
  pose proof Hdom as [_ _ HA HD HS HR].
  assert (Hhold : 0 <= 1#2) by lra.
  unfold gain_at. cbn [gain playTone_voice].
  split.
  { intro t. rewrite playTone_gain_hold. apply tone_gain_between; assumption. }
  split; [apply playTone_gain_events, Hdom|].
  split; [reflexivity|].
  unfold tone_noteDuration.
  split; [repeat split; lra|]. split; [repeat split; lra|].
  rewrite playTone_gain_hold.
  split.
  { rewrite (value_at_time_compat _ _ (now + (attack cfg + decay cfg))) by lra.
    rewrite tone_gain_refines_gainAt by (assumption || lra).
    apply gainAt_sustain; cbn; (assumption || lra). }
  split.
  { rewrite tone_gain_refines_gainAt by (assumption || lra).
    apply gainAt_sustain; cbn; (assumption || lra). }
  intros t t' Ht Ht'. apply tone_gain_lipschitz; assumption.
Qed.

Lemma playTone_gain_well_formed_witness :
  in_slider_domain default_settings
  /\ forall t, 0 <= gain_at (playTone_voice default_settings 0) t <= 1.
Proof.
  assert (H : in_slider_domain default_settings)
    by (split; cbn; try lra; left; reflexivity).
  split; [exact H|].
  exact (proj1 (playTone_gain_well_formed default_settings 0 H)).
Defined.

(** ** The notes of the scale *)

Lemma skipn_length_app {A : Type} (l l' : list A) :
  skipn (List.length l) (l ++ l') = l'.
Proof. induction l as [|x l IH]; [reflexivity|exact IH]. Qed.

Lemma scale_voices_run (st : Page) :
  timers st = [] ->
  scale_voices st =
  [ scale_note st 0 (26163 # 100);
    scale_note st 1 (29366 # 100);
    scale_note st 2 (32963 # 100);
    scale_note st 3 (34923 # 100);
    scale_note st 4 (39200 # 100);
    scale_note st 5 (44000 # 100);
    scale_note st 6 (49388 # 100);
    scale_note st 7 (52325 # 100) ].
Proof.
  intro Hidle. unfold scale_voices. rewrite playCMajorScale_run by exact Hidle.
  cbn [voices]. apply skipn_length_app.
Qed.

Lemma scale_note_start_offset (st : Page) (index : nat) :
  scale_note_start st index
  == (clock_ms st - context_origin st) / 1000 + Q_of_nat index * scale_noteDuration.
Proof. unfold scale_note_start. field. Qed.

Lemma initAudioContext_origin (st : Page) :
  currentTime (initAudioContext st)
  = Some ((clock_ms st - context_origin st) / 1000).
Proof.
  unfold initAudioContext, currentTime, context_origin.
  destruct (audioContext st) as [origin|] eqn:E; [rewrite E|]; reflexivity.
Qed.

Lemma playNoteInScale_gain_events (duration now : Q) :
  quickAttack + quickRelease <= duration ->
  events (playNoteInScale_gain duration now) =
  [ mkEvent SetValue 0 now;
    mkEvent LinearRamp (1#2) (now + quickAttack);
    mkEvent LinearRamp (1#2) (now + duration - quickRelease);
    mkEvent LinearRamp 0 (now + duration) ].
Proof.
  unfold quickAttack, quickRelease. intro Hd.
  unfold playNoteInScale_gain, linearRampToValueAtTime, setValueAtTime,
    createGain_gain, quickAttack, quickRelease.
  repeat (cbn [events insert_event ev_time defaultValue]; qle_bool).
  reflexivity.
Qed.

Section ScaleNoteGain.
Variable w : string.
Variables freq duration now : Q.
Hypothesis long_enough : quickAttack + quickRelease <= duration.

Let v := playNoteInScale_voice w freq duration now.

Ltac scale_gain_timeline :=
  pose proof long_enough as Hd;
  unfold gain_at, v, value_at; cbn [gain playNoteInScale_voice];
  rewrite !playNoteInScale_gain_events by exact long_enough;
  unfold quickAttack, quickRelease in *.

Ltac scale_gain_unfold :=
  scale_gain_timeline; cbn [value_from ev_time ev_value ev_kind].

Lemma scale_gain_attack (t : Q) :
  0 <= t -> t <= quickAttack -> gain_at v (now + t) == (1#2) * (t / quickAttack).
Proof.
  intros H0 H1. scale_gain_unfold.
  rewrite (Qle_bool_true now) by lra.
  qle_case Hc.
  - qle_bool. qle_case Hc'.
    + assert (E : duration == 6#100) by lra.
      assert (E' : t == 1#100) by lra. rewrite E', E. field; lra.
    + assert (E' : t == 1#100) by lra. rewrite E'. field; lra.
  - field; lra.
Qed.

Lemma scale_gain_plateau (t : Q) :
  quickAttack <= t -> t <= duration - quickRelease -> gain_at v (now + t) == 1#2.
Proof.
  intros H0 H1. scale_gain_unfold.
  rewrite (Qle_bool_true now) by lra.
  rewrite (Qle_bool_true (now + _)) by lra.
  rewrite (Qle_bool_false (now + duration)) by lra.
  qle_case Hc.
  - assert (E : now + t - (now + duration - (5#100)) == 0) by lra.
    rewrite E. field; lra.
  - field; lra.
Qed.

Lemma scale_gain_release (t : Q) :
  duration - quickRelease <= t -> t <= duration ->
  gain_at v (now + t) == (1#2) * ((duration - t) / quickRelease).
Proof.
  intros H0 H1. scale_gain_unfold.
  rewrite (Qle_bool_true now) by lra.
  rewrite (Qle_bool_true (now + (1#100))) by lra.
  rewrite (Qle_bool_true (now + duration - _)) by lra.
  qle_case Hc.
  - assert (E : duration - t == 0) by lra. rewrite E. field; lra.
  - field; lra.
Qed.

Lemma scale_gain_done (t : Q) : duration <= t -> gain_at v (now + t) == 0.
Proof.
  intros H0. scale_gain_unfold. qle_bool. reflexivity.
Qed.

Lemma scale_gain_between (t : Q) : now <= t -> 0 <= gain_at v t <= 1#2.
Proof.
  intro Ht. scale_gain_timeline. cbn [ev_time ev_value].
  rewrite (Qle_bool_true now) by lra.
  apply value_from_between; [lra| |cbn; repeat split; lra|exact Ht].
  repeat constructor; cbn; lra.
Qed.

Lemma scale_gain_lipschitz (t t' : Q) :
  now <= t -> now <= t' -> Qabs (gain_at v t' - gain_at v t) <= 50 * Qabs (t' - t).
Proof.
  intros Ht Ht'. apply (lipschitz_abs (gain_at v) 50 now); [|exact Ht|exact Ht'].
  intros u u' Hu Huu'. scale_gain_timeline. cbn [ev_time ev_value].
  rewrite !(Qle_bool_true now) by lra.
  apply value_from_lipschitz; [lra| |exact Hu|exact Huu'].
  cbn [ramps_within ev_kind ev_time ev_value]. repeat split; lra.
Qed.

End ScaleNoteGain.

Lemma scale_noteDuration_long_enough : quickAttack + quickRelease <= scale_noteDuration.
Proof. unfold quickAttack, quickRelease, scale_noteDuration. lra. Qed.

Ltac nth_note st :=
  rewrite (scale_voices_run st) by assumption; cbn [nth_error];
  eexists; eexists; eexists;
  split; [reflexivity|]; split; [reflexivity|]; split; [reflexivity|];
  split; [rewrite scale_note_start_offset; unfold scale_noteDuration; lra|];
  intros t Ht; unfold voice_frequency, scale_note;
  cbn [osc_frequency playNoteInScale_voice]; apply voice_frequency_set, Ht.

(** C3. A click on "Play C-Major Scale" on an idle page sets a timer for each
    of eight notes, 300 ms apart, and plays exactly eight notes, with the
    frequencies of the C-major table in order; note i starts i * 0.3 s after
    the click, and the scale lasts 8 * 0.3 = 2.4 s. *)
Theorem playCMajorScale_eight_notes (st : Page) :
  timers st = [] ->
  exists t0,
    currentTime (initAudioContext st) = Some t0
    /\ cMajorScale = [ 26163 # 100; 29366 # 100; 32963 # 100; 34923 # 100;
                       39200 # 100; 44000 # 100; 49388 # 100; 52325 # 100 ]
    /\ timers (playCMajorScale st) =
       [ note_timer (clock_ms st) 0 (26163 # 100);
         note_timer (clock_ms st) 1 (29366 # 100);
         note_timer (clock_ms st) 2 (32963 # 100);
         note_timer (clock_ms st) 3 (34923 # 100);
         note_timer (clock_ms st) 4 (39200 # 100);
         note_timer (clock_ms st) 5 (44000 # 100);
         note_timer (clock_ms st) 6 (49388 # 100);
         note_timer (clock_ms st) 7 (52325 # 100);
         mkTimer (clock_ms st + (Q_of_nat 8 * scale_noteDuration * 1000 + 500))
                 CallHideStatus ]
    /\ List.length (scale_voices st) = 8%nat
    /\ (forall i, (i < 8)%nat ->
          exists v f now,
            nth_error (scale_voices st) i = Some v
            /\ nth_error cMajorScale i = Some f
            /\ start_time v = Some now
            /\ now == t0 + Q_of_nat i * (3#10)
            /\ (forall t, now <= t -> voice_frequency v t = f))
    /\ Q_of_nat (List.length cMajorScale) * scale_noteDuration == 24#10
    /\ (exists v stop,
          nth_error (scale_voices st) 7 = Some v
          /\ stop_time v = Some stop /\ stop == t0 + (24#10))
    /\ timers (run_to_completion (playCMajorScale st)) = [].
Proof.
  intro Hidle. eexists. split; [apply initAudioContext_origin|].
  split; [reflexivity|].
  split; [apply playCMajorScale_timers, Hidle|].
  split; [rewrite scale_voices_run by exact Hidle; reflexivity|].
  split.
  { intros i Hi.
    destruct i as [|[|[|[|[|[|[|[|i]]]]]]]]; [nth_note st ..|lia]. }
  split; [reflexivity|].
  split.
  { rewrite scale_voices_run by exact Hidle.
    exists (scale_note st 7 (52325 # 100)). eexists.
    split; [reflexivity|]. split; [reflexivity|].
    rewrite scale_note_start_offset. unfold scale_noteDuration, Q_of_nat.
    cbn [Z.of_nat Pos.of_succ_nat Pos.succ]. unfold inject_Z. lra. }
  rewrite playCMajorScale_run by exact Hidle. reflexivity.
Qed.

Lemma playCMajorScale_eight_notes_witness :
  timers (load_page default_settings) = []
  /\ exists t0, currentTime (initAudioContext (load_page default_settings)) = Some t0.
Proof.
  assert (H : timers (load_page default_settings) = []) by reflexivity.
  split; [exact H|].
  destruct (playCMajorScale_eight_notes (load_page default_settings) H)
    as (t0 & H0 & _).
  exists t0. exact H0.
Defined.

Lemma scale_note_envelope (w : string) (freq now : Q) :
  let v := playNoteInScale_voice w freq scale_noteDuration now in
  start_time v = Some now
  /\ stop_time v = Some (now + scale_noteDuration)
  /\ (forall t, 0 <= t -> t <= quickAttack ->
        gain_at v (now + t) == (1#2) * (t / quickAttack))
  /\ (forall t, quickAttack <= t -> t <= scale_noteDuration - quickRelease ->
        gain_at v (now + t) == 1#2)
  /\ (forall t, scale_noteDuration - quickRelease <= t -> t <= scale_noteDuration ->
        gain_at v (now + t) == (1#2) * ((scale_noteDuration - t) / quickRelease))
  /\ (forall t, scale_noteDuration <= t -> gain_at v (now + t) == 0)
  /\ (forall t, now <= t -> 0 <= gain_at v t <= 1#2)
  /\ gain_at v (now + quickAttack) == 1#2.
Proof.
  pose proof scale_noteDuration_long_enough as Hd. cbv zeta.
  split; [reflexivity|]. split; [reflexivity|].
  split; [intros; apply scale_gain_attack; assumption|].
  split; [intros; apply scale_gain_plateau; assumption|].
  split; [intros; apply scale_gain_release; assumption|].
  split; [intros; apply scale_gain_done; assumption|].
  split; [intros; apply scale_gain_between; assumption|].
  apply scale_gain_plateau; [exact Hd|apply Qle_refl|].
  unfold quickAttack, quickRelease, scale_noteDuration. lra.
Qed.

(** C4. Every note of the scale has the same quick envelope, whatever the
    sidebar says: the gain rises linearly from 0 to 0.5 in the first 0.01 s,
    stays at 0.5 until 0.05 s before the end, falls linearly to 0 at the
    end, 0.3 s after the start, where the oscillator stops; 0.5 is the
    peak. *)
Theorem scale_note_quick_envelope (st : Page) :
  timers st = [] ->
  quickAttack == 1#100 /\ quickRelease == 5#100 /\ scale_noteDuration == 3#10
  /\ List.length (scale_voices st) = 8%nat
  /\ forall v, In v (scale_voices st) ->
       exists now,
         start_time v = Some now
         /\ stop_time v = Some (now + scale_noteDuration)
         /\ (forall t, 0 <= t -> t <= quickAttack ->
               gain_at v (now + t) == (1#2) * (t / quickAttack))
         /\ (forall t, quickAttack <= t -> t <= scale_noteDuration - quickRelease ->
               gain_at v (now + t) == 1#2)
         /\ (forall t, scale_noteDuration - quickRelease <= t -> t <= scale_noteDuration ->
               gain_at v (now + t) == (1#2) * ((scale_noteDuration - t) / quickRelease))
         /\ (forall t, scale_noteDuration <= t -> gain_at v (now + t) == 0)
         /\ (forall t, now <= t -> 0 <= gain_at v t <= 1#2)
         /\ gain_at v (now + quickAttack) == 1#2.
Proof.
  intro Hidle. split; [reflexivity|]. split; [reflexivity|]. split; [reflexivity|].
  rewrite scale_voices_run by exact Hidle. split; [reflexivity|].
  intros v Hin. cbn [In] in Hin.
  repeat (destruct Hin as [<-|Hin];
          [eexists; apply (scale_note_envelope (waveform (settings st)))|]).
  destruct Hin.
Qed.

Lemma scale_note_quick_envelope_witness :
  timers (load_page default_settings) = []
  /\ List.length (scale_voices (load_page default_settings)) = 8%nat.
Proof.
  assert (H : timers (load_page default_settings) = []) by reflexivity.
  split; [exact H|].
  exact (proj1 (proj2 (proj2 (proj2
    (scale_note_quick_envelope (load_page default_settings) H))))).
Defined.

(** ** The scale does not read the frequency or the envelope *)

Ltac cbn_page :=
  cbn [settings clock_ms audioContext status timers voices
       set_status set_timers set_clock set_audioContext set_settings connect].

Lemma set_settings_agree (cfg1 cfg2 : Settings) (st : Page) :
  waveform cfg1 = waveform cfg2 ->
  agree_but_envelope (set_settings cfg1 st) (set_settings cfg2 st).
Proof. intro H. repeat split. exact H. Qed.

Lemma agree_set_status (s : StatusElement) (st1 st2 : Page) :
  agree_but_envelope st1 st2 ->
  agree_but_envelope (set_status s st1) (set_status s st2).
Proof. intros (Hw & Hc & Ha & Hs & Ht & Hv). repeat split; assumption. Qed.

Lemma agree_showStatus (message : string) (st1 st2 : Page) :
  agree_but_envelope st1 st2 ->
  agree_but_envelope (showStatus message st1) (showStatus message st2).
Proof. apply agree_set_status. Qed.

Lemma agree_updateStatus (message : string) (st1 st2 : Page) :
  agree_but_envelope st1 st2 ->
  agree_but_envelope (updateStatus message st1) (updateStatus message st2).
Proof.
  intros H. unfold updateStatus. destruct H as (Hw & Hc & Ha & Hs & Ht & Hv).
  rewrite Hs. repeat split; assumption.
Qed.

Lemma agree_hideStatus (st1 st2 : Page) :
  agree_but_envelope st1 st2 ->
  agree_but_envelope (hideStatus st1) (hideStatus st2).
Proof.
  intros H. unfold hideStatus. destruct H as (Hw & Hc & Ha & Hs & Ht & Hv).
  rewrite Hs. repeat split; assumption.
Qed.

Lemma agree_initAudioContext (st1 st2 : Page) :
  agree_but_envelope st1 st2 ->
  agree_but_envelope (initAudioContext st1) (initAudioContext st2).
Proof.
  intros (Hw & Hc & Ha & Hs & Ht & Hv). unfold initAudioContext.
  rewrite Ha, Hc. destruct (audioContext st2) eqn:E.
  - repeat split; congruence.
  - repeat split; (assumption || reflexivity).
Qed.

Lemma agree_setTimeout (cb : Callback) (delay : Q) (st1 st2 : Page) :
  agree_but_envelope st1 st2 ->
  agree_but_envelope (setTimeout cb delay st1) (setTimeout cb delay st2).
Proof.
  intros (Hw & Hc & Ha & Hs & Ht & Hv). unfold setTimeout.
  rewrite Hc, Ht. repeat split; assumption.
Qed.

Lemma agree_forEach_schedule_note (l : list Q) (index : nat) (st1 st2 : Page) :
  agree_but_envelope st1 st2 ->
  agree_but_envelope (forEach schedule_note l index st1)
                     (forEach schedule_note l index st2).
Proof.
  revert index st1 st2. induction l as [|freq l IH]; intros index st1 st2 H;
    cbn [forEach]; [exact H|].
  apply IH. unfold schedule_note. apply agree_setTimeout, H.
Qed.

Lemma agree_playCMajorScale (st1 st2 : Page) :
  agree_but_envelope st1 st2 ->
  agree_but_envelope (playCMajorScale st1) (playCMajorScale st2).
Proof.
  intro H. unfold playCMajorScale.
  apply agree_setTimeout, agree_forEach_schedule_note, agree_showStatus,
    agree_initAudioContext, H.
Qed.

Lemma agree_run_callback (cb : Callback) (st1 st2 : Page) :
  agree_but_envelope st1 st2 ->
  agree_but_envelope (run_callback cb st1) (run_callback cb st2).
Proof.
  intro H. destruct cb as [freq duration noteName|]; cbn [run_callback].
  - unfold playNoteInScale, currentTime.
    pose proof H as (Hw & Hc & Ha & Hs & Ht & Hv). rewrite Ha, Hc, Hw.
    destruct (audioContext st2) eqn:E; [|exact H].
    apply agree_updateStatus. unfold connect. rewrite Hv.
    repeat split; cbn_page; congruence.
  - apply agree_hideStatus, H.
Qed.

Lemma agree_fire (tm : Timer) (rest : list Timer) (st1 st2 : Page) :
  agree_but_envelope st1 st2 ->
  agree_but_envelope (fire tm (set_timers rest st1)) (fire tm (set_timers rest st2)).
Proof.
  intros (Hw & Hc & Ha & Hs & Ht & Hv). unfold fire.
  apply agree_run_callback. cbn_page. rewrite Hc. repeat split; assumption.
Qed.

Lemma agree_run (fuel : nat) (st1 st2 : Page) :
  agree_but_envelope st1 st2 ->
  agree_but_envelope (run fuel st1) (run fuel st2).
Proof.
  revert st1 st2. induction fuel as [|n IH]; intros st1 st2 H; cbn [run];
    [exact H|].
  pose proof H as (Hw & Hc & Ha & Hs & Ht & Hv). rewrite Ht.
  destruct (timers st2) as [|tm rest]; [exact H|].
  apply IH, agree_fire, H.
Qed.

Lemma agree_run_to_completion (st1 st2 : Page) :
  agree_but_envelope st1 st2 ->
  agree_but_envelope (run_to_completion st1) (run_to_completion st2).
Proof.
  intro H. unfold run_to_completion.
  pose proof H as (Hw & Hc & Ha & Hs & Ht & Hv). rewrite Ht.
  apply agree_run, H.
Qed.

(** C5. Two sessions with the same waveform play the same scale, whatever
    their frequency, attack, decay, sustain and release: the same timers,
    the same notes with the same frequencies and gain timelines. *)
Theorem playScale_depends_on_waveform_only (st : Page) (cfg1 cfg2 : Settings) :
  waveform cfg1 = waveform cfg2 ->
  let st1 := set_settings cfg1 st in
  let st2 := set_settings cfg2 st in
  timers (playCMajorScale st1) = timers (playCMajorScale st2)
  /\ scale_voices st1 = scale_voices st2
  /\ voices (run_to_completion (playCMajorScale st1))
     = voices (run_to_completion (playCMajorScale st2))
  /\ status (run_to_completion (playCMajorScale st1))
     = status (run_to_completion (playCMajorScale st2))
  /\ forall i t,
       option_map (fun v => (start_time v, stop_time v, osc_type v,
                             voice_frequency v t, gain_at v t))
                  (nth_error (scale_voices st1) i)
       = option_map (fun v => (start_time v, stop_time v, osc_type v,
                               voice_frequency v t, gain_at v t))
                    (nth_error (scale_voices st2) i).
Proof.
  intro Hw. cbv zeta.
  pose proof (agree_playCMajorScale _ _ (set_settings_agree cfg1 cfg2 st Hw)) as Hplay.
  pose proof (agree_run_to_completion _ _ Hplay) as Hrun.
  destruct Hplay as (_ & _ & _ & _ & Htimers & _).
  destruct Hrun as (_ & _ & _ & Hstatus & _ & Hvoices).
  assert (Hscale : scale_voices (set_settings cfg1 st) = scale_voices (set_settings cfg2 st)).
  { unfold scale_voices. rewrite Hvoices. reflexivity. }
  split; [exact Htimers|]. split; [exact Hscale|].
  split; [exact Hvoices|]. split; [exact Hstatus|].
  intros i t. rewrite Hscale. reflexivity.
Qed.

Lemma playScale_depends_on_waveform_only_witness :
  waveform default_settings
  = waveform (mkSettings 200 "sine" 2 (1#100) 1 3)
  /\ scale_voices (set_settings default_settings (load_page default_settings))
     = scale_voices (set_settings (mkSettings 200 "sine" 2 (1#100) 1 3)
                                  (load_page default_settings)).
Proof.
  assert (H : waveform default_settings
              = waveform (mkSettings 200 "sine" 2 (1#100) 1 3)) by reflexivity.
  split; [exact H|].
  exact (proj1 (proj2 (playScale_depends_on_waveform_only
                         (load_page default_settings) _ _ H))).
Defined.

(** ** What the page is ever played with *)

Lemma plays_only_frame (cfg : Settings) (st st' : Page) :
  settings st' = settings st -> voices st' = voices st ->
  plays_only cfg st -> plays_only cfg st'.
Proof. intros Hs Hv [H1 H2]. split; [congruence|rewrite Hv; exact H2]. Qed.

Lemma plays_only_connect (cfg : Settings) (st st' : Page) (v : Voice) :
  settings st' = settings st -> voices st' = voices st ++ [v] ->
  built_from cfg v -> plays_only cfg st -> plays_only cfg st'.
Proof.
  intros Hs Hv Hb [H1 H2]. split; [congruence|]. rewrite Hv.
  apply Forall_app. split; [exact H2|]. constructor; [exact Hb|constructor].
Qed.

Lemma plays_only_playTone (cfg : Settings) (st st' : Page) :
  playTone st = Some st' -> plays_only cfg st -> plays_only cfg st'.
Proof.
  intros Hplay Hinv. destruct (initAudioContext_currentTime st) as [now Hnow].
  destruct (playTone_unfold st now Hnow) as (st'' & Hplay' & Hv & _ & Hs).
  rewrite Hplay in Hplay'. injection Hplay' as <-.
  apply (plays_only_connect cfg st st' _ Hs Hv); [|exact Hinv].
  left. exists now. destruct Hinv as [<- _]. reflexivity.
Qed.

Lemma plays_only_run_callback (cfg : Settings) (cb : Callback) (st : Page) :
  plays_only cfg st -> plays_only cfg (run_callback cb st).
Proof.
  intro Hinv. destruct cb as [freq duration noteName|]; cbn [run_callback].
  - unfold playNoteInScale. destruct (currentTime st) as [now|]; [|exact Hinv].
    eapply plays_only_connect; [| |right|exact Hinv];
      [reflexivity|reflexivity|].
    exists freq, duration, now. destruct Hinv as [<- _]. reflexivity.
  - eapply plays_only_frame; [| |exact Hinv]; reflexivity.
Qed.

Lemma plays_only_fire (cfg : Settings) (tm : Timer) (rest : list Timer) (st : Page) :
  plays_only cfg st -> plays_only cfg (fire tm (set_timers rest st)).
Proof.
  intro Hinv. unfold fire. apply plays_only_run_callback.
  eapply plays_only_frame; [| |exact Hinv]; reflexivity.
Qed.

Lemma plays_only_run (cfg : Settings) (fuel : nat) (st : Page) :
  plays_only cfg st -> plays_only cfg (run fuel st).
Proof.
  revert st. induction fuel as [|n IH]; intros st Hinv; cbn [run]; [exact Hinv|].
  destruct (timers st) as [|tm rest]; [exact Hinv|].
  apply IH, plays_only_fire, Hinv.
Qed.

Lemma plays_only_wait_until (cfg : Settings) (fuel : nat) (time_ms : Q) (st : Page) :
  plays_only cfg st -> plays_only cfg (wait_until fuel time_ms st).
Proof.
  assert (Hclock : forall c s, plays_only cfg s -> plays_only cfg (set_clock c s)).
  { intros c s H. eapply plays_only_frame; [| |exact H]; reflexivity. }
  revert st. induction fuel as [|n IH]; intros st Hinv; cbn [wait_until];
    [apply Hclock, Hinv|].
  destruct (timers st) as [|tm rest]; [apply Hclock, Hinv|].
  destruct (Qle_bool (due tm) time_ms); [|apply Hclock, Hinv].
  apply IH, plays_only_fire, Hinv.
Qed.

Lemma plays_only_playCMajorScale (cfg : Settings) (st : Page) :
  plays_only cfg st -> plays_only cfg (playCMajorScale st).
Proof.
  intro Hinv. rewrite playCMajorScale_page.
  eapply plays_only_frame; [| |exact Hinv]; reflexivity.
Qed.

Lemma plays_only_act (cfg : Settings) (a : UserAction) (st : Page) :
  plays_only cfg st -> plays_only cfg (act a st).
Proof.
  intro Hinv. destruct a as [| |time_ms]; cbn [act].
  - destruct (playTone st) as [st'|] eqn:E; [|exact Hinv].
    apply (plays_only_playTone cfg st st' E Hinv).
  - apply plays_only_playCMajorScale, Hinv.
  - apply plays_only_wait_until, Hinv.
Qed.

Lemma plays_only_perform (cfg : Settings) (actions : list UserAction) (st : Page) :
  plays_only cfg st -> plays_only cfg (perform actions st).
Proof.
  revert st. induction actions as [|a actions IH]; intros st Hinv;
    [exact Hinv|].
  apply IH, plays_only_act, Hinv.
Qed.

(** C7. Whatever the widgets return within their ranges, the settings that
    reach the page lie in the slider domains; the attack is never 0; and
    whatever the user does with the page, it plays voices built from these
    settings only. *)
Theorem sidebar_settings_in_domain
  (slider : SliderArgs -> Q) (selectbox : SelectboxArgs -> string) :
  (forall a, min_value a <= max_value a -> in_slider_range a (slider a)) ->
  (forall a, (index a < List.length (options a))%nat ->
             In (selectbox a) (options a)) ->
  let cfg := sidebar slider selectbox in
  in_slider_domain cfg
  /\ ~ attack cfg == 0
  /\ forall actions,
       let st := perform actions (render slider selectbox) in
       settings st = cfg /\ Forall (built_from cfg) (voices st).
Proof.
  intros Hslider Hselect. cbv zeta.
  assert (Hdom : in_slider_domain (sidebar slider selectbox)).
  { split; cbn [sidebar frequency waveform attack decay sustain release].
    - apply (Hslider frequency_slider). cbn. lra.
    - apply (Hselect waveform_selectbox). cbn. lia.
    - apply (Hslider attack_slider). cbn. lra.
    - apply (Hslider decay_slider). cbn. lra.
    - apply (Hslider sustain_slider). cbn. lra.
    - apply (Hslider release_slider). cbn. lra. }
  split; [exact Hdom|]. split.
  { destruct Hdom as [_ _ HA _ _ _]. intro E. rewrite E in HA. lra. }
  intro actions. apply plays_only_perform. split; [reflexivity|constructor].
Qed.

Lemma sidebar_settings_in_domain_witness :
  in_slider_domain (sidebar lowest_slider untouched_selectbox)
  /\ ~ attack (sidebar lowest_slider untouched_selectbox) == 0.
Proof.
  destruct (sidebar_settings_in_domain lowest_slider untouched_selectbox
              (fun a H => conj (Qle_refl (min_value a)) H)
              (fun a H => nth_In (options a) EmptyString H))
    as (H1 & H2 & _).
  split; assumption.
Defined.

(** ** The status display *)

Lemma insert_timer_keeps (tm tm' : Timer) (l : list Timer) :
  In tm l -> In tm (insert_timer tm' l).
Proof.
  induction l as [|x l IH]; intro H; [destruct H|].
  cbn [insert_timer]. destruct (Qle_bool (due x) (due tm')).
  - destruct H as [->|H]; [left; reflexivity|right; apply IH, H].
  - right. exact H.
Qed.

Lemma setTimeout_keeps (tm : Timer) (cb : Callback) (delay : Q) (st : Page) :
  In tm (timers st) -> In tm (timers (setTimeout cb delay st)).
Proof. intro H. cbn. apply insert_timer_keeps, H. Qed.

Lemma forEach_schedule_note_keeps (tm : Timer) (l : list Q) (index : nat) (st : Page) :
  In tm (timers st) -> In tm (timers (forEach schedule_note l index st)).
Proof.
  revert index st. induction l as [|freq l IH]; intros index st H;
    cbn [forEach]; [exact H|].
  apply IH. unfold schedule_note. apply setTimeout_keeps, H.
Qed.

(** The page has no way to cancel: a click on either button leaves every
    pending timer pending. *)
Lemma clicks_keep_timers (tm : Timer) (st : Page) :
  In tm (timers st) ->
  In tm (timers (act ClickPlayTone st)) /\ In tm (timers (act ClickPlayScale st)).
Proof.
  intro H. destruct (initAudioContext_frame st) as (_ & _ & Ht & _). split.
  - cbn [act]. unfold playTone.
    destruct (currentTime (initAudioContext st)) as [now|]; [|exact H].
    apply setTimeout_keeps. cbn. rewrite Ht. exact H.
  - cbn [act]. unfold playCMajorScale.
    apply setTimeout_keeps, forEach_schedule_note_keeps. cbn. rewrite Ht. exact H.
Qed.

(** C10. [updateStatus] changes the text only while the status is shown and
    otherwise leaves the page as it is; [showStatus] always sets the text
    and shows the status; neither touches anything but the status element.
    The note of a scale reports itself through [updateStatus]. *)
Theorem updateStatus_only_when_active (message : string) (st : Page) :
  (if active (status st)
   then status (updateStatus message st) = mkStatus message true
   else updateStatus message st = st)
  /\ status (showStatus message st) = mkStatus message true
  /\ same_but_status st (updateStatus message st)
  /\ same_but_status st (showStatus message st)
  /\ forall freq duration noteName,
       match playNoteInScale freq duration noteName st with
       | Some st' =>
           if active (status st)
           then status st' = mkStatus note_message true
           else status st' = status st
       | None => True
       end.
Proof.
  split.
  { unfold updateStatus, updateStatus_element.
    destruct (active (status st)) eqn:E; cbn [status set_status].
    - reflexivity.
    - destruct st; reflexivity. }
  split; [reflexivity|]. split; [repeat split|]. split; [repeat split|].
  intros freq duration noteName. unfold playNoteInScale.
  destruct (currentTime st) as [now|]; [|exact I].
  unfold updateStatus, updateStatus_element, connect. cbn [status set_status].
  destruct (active (status st)) eqn:E; reflexivity.
Qed.

(** * Further properties of the page *)

(** ** The timer queue runs dry *)

Lemma run_callback_frame (cb : Callback) (st : Page) :
  settings (run_callback cb st) = settings st
  /\ clock_ms (run_callback cb st) = clock_ms st
  /\ audioContext (run_callback cb st) = audioContext st
  /\ timers (run_callback cb st) = timers st.
Proof.
  destruct cb as [freq duration noteName|]; cbn [run_callback].
  - unfold playNoteInScale. destruct (currentTime st); repeat split.
  - repeat split.
Qed.

Lemma fire_timers (tm : Timer) (rest : list Timer) (st : Page) :
  timers (fire tm (set_timers rest st)) = rest.
Proof.
  unfold fire.
  destruct (run_callback_frame (callback tm)
              (set_clock (later (clock_ms (set_timers rest st)) (due tm))
                         (set_timers rest st))) as (_ & _ & _ & H).
  rewrite H. reflexivity.
Qed.

Lemma run_empties (fuel : nat) (st : Page) :
  (List.length (timers st) <= fuel)%nat -> timers (run fuel st) = [].
Proof.
  revert st. induction fuel as [|n IH]; intros st Hlen; cbn [run].
  - destruct (timers st); [reflexivity|cbn in Hlen; lia].
  - destruct (timers st) as [|tm rest] eqn:E; [exact E|].
    apply IH. rewrite fire_timers. cbn in Hlen. lia.
Qed.

(** X1. Whatever is pending, the event loop empties the queue: the
    callbacks of the page ([playNoteInScale], [hideStatus]) set no timer of
    their own, so after as many firings as there were timers none is left. *)
Theorem run_to_completion_quiet (st : Page) :
  timers (run_to_completion st) = []
  /\ settings (run_to_completion st) = settings st
  /\ audioContext (run_to_completion st) = audioContext st.
Proof.
  split; [apply run_empties; reflexivity|].
  unfold run_to_completion. generalize (List.length (timers st)) as fuel.
  intro fuel. revert st. induction fuel as [|n IH]; intro st; cbn [run];
    [split; reflexivity|].
  destruct (timers st) as [|tm rest]; [split; reflexivity|].
  destruct (IH (fire tm (set_timers rest st))) as [H1 H2]. rewrite H1, H2.
  unfold fire.
  destruct (run_callback_frame (callback tm)
              (set_clock (later (clock_ms (set_timers rest st)) (due tm))
                         (set_timers rest st))) as (Hs & _ & Ha & _).
  rewrite Hs, Ha. split; reflexivity.
Qed.

(** ** The status display over time *)

Lemma run_callback_hidden (cb : Callback) (st : Page) :
  active (status st) = false -> status (run_callback cb st) = status st.
Proof.
  intro H. destruct cb as [freq duration noteName|]; cbn [run_callback].
  - unfold playNoteInScale. destruct (currentTime st); [|reflexivity].
    unfold updateStatus, updateStatus_element, connect. cbn [status set_status].
    rewrite H. reflexivity.
  - unfold hideStatus, hideStatus_element. cbn [status set_status].
    destruct (status st) as [text shown]. cbn in H. rewrite H. reflexivity.
Qed.

Lemma fire_hidden (tm : Timer) (rest : list Timer) (st : Page) :
  active (status st) = false -> status (fire tm (set_timers rest st)) = status st.
Proof. intro H. unfold fire. rewrite run_callback_hidden; [reflexivity|exact H]. Qed.

(** X2. Once the status is hidden, timers alone never bring it back nor
    change its text: the notes of a scale report through [updateStatus],
    which does nothing on a hidden status, and [hideStatus] keeps the text.
    Only a click shows the status again. *)
Theorem hidden_status_stays_hidden (fuel : nat) (time_ms : Q) (st : Page) :
  active (status st) = false ->
  status (run fuel st) = status st
  /\ status (wait_until fuel time_ms st) = status st.
Proof.
  revert st. induction fuel as [|n IH]; intros st H; cbn [run wait_until];
    [split; reflexivity|].
  destruct (timers st) as [|tm rest]; [split; reflexivity|].
  assert (H' : active (status (fire tm (set_timers rest st))) = false)
    by (rewrite fire_hidden; assumption).
  destruct (IH _ H') as [IH1 IH2]. split.
  - rewrite IH1. apply fire_hidden, H.
  - destruct (Qle_bool (due tm) time_ms); [|reflexivity].
    rewrite IH2. apply fire_hidden, H.
Qed.

Lemma hidden_status_stays_hidden_witness :
  active (status hidden_scale_page) = false
  /\ List.length (timers hidden_scale_page) = 9%nat
  /\ status (run 9 hidden_scale_page) = status hidden_scale_page.
Proof.
  assert (H : active (status hidden_scale_page) = false) by reflexivity.
  split; [exact H|]. split; [vm_compute; reflexivity|].
  exact (proj1 (hidden_status_stays_hidden 9 0 hidden_scale_page H)).
Defined.

Lemma status_texts_run_callback (cb : Callback) (st : Page) :
  In (textContent (status st)) status_texts ->
  In (textContent (status (run_callback cb st))) status_texts.
Proof.
  intro H. destruct cb as [freq duration noteName|]; cbn [run_callback].
  - unfold playNoteInScale. destruct (currentTime st); [|exact H].
    unfold updateStatus, updateStatus_element, connect. cbn [status set_status].
    destruct (active (status st)); [|exact H].
    cbn [textContent status_texts In]. tauto.
  - exact H.
Qed.

Lemma status_texts_fire (tm : Timer) (rest : list Timer) (st : Page) :
  In (textContent (status st)) status_texts ->
  In (textContent (status (fire tm (set_timers rest st)))) status_texts.
Proof. intro H. unfold fire. apply status_texts_run_callback. exact H. Qed.

Lemma status_texts_wait_until (fuel : nat) (time_ms : Q) (st : Page) :
  In (textContent (status st)) status_texts ->
  In (textContent (status (wait_until fuel time_ms st))) status_texts.
Proof.
  revert st. induction fuel as [|n IH]; intros st H; cbn [wait_until];
    [exact H|].
  destruct (timers st) as [|tm rest]; [exact H|].
  destruct (Qle_bool (due tm) time_ms); [|exact H].
  apply IH, status_texts_fire, H.
Qed.

Lemma status_texts_act (a : UserAction) (st : Page) :
  In (textContent (status st)) status_texts ->
  In (textContent (status (act a st))) status_texts.
Proof.
  intro H. destruct a as [| |time_ms]; cbn [act].
  - destruct (initAudioContext_currentTime st) as [now Hnow].
    destruct (playTone_unfold st now Hnow) as (st' & -> & _ & Hs & _).
    rewrite Hs. cbn [textContent status_texts In]. tauto.
  - rewrite playCMajorScale_page. cbn [status textContent status_texts In]. tauto.
  - apply status_texts_wait_until, H.
Qed.

(** X3. Whatever the settings and whatever the user does, the status holds
    one of four fixed texts. The braces of the two back-quoted messages
    reach the script without a dollar sign, so neither the frequency, the
    waveform nor the name of a note is ever shown; and the text "Audio
    context initialized" is replaced within the click that sets it. *)
Theorem status_shows_fixed_texts (cfg : Settings) (actions : list UserAction) :
  In (textContent (status (perform actions (load_page cfg)))) status_texts.
Proof.
  unfold perform.
  assert (H : In (textContent (status (load_page cfg))) status_texts)
    by (left; reflexivity).
  revert H. generalize (load_page cfg) as st.
  induction actions as [|a actions IH]; intros st H; [exact H|].
  cbn [fold_left]. apply IH, status_texts_act, H.
Qed.

(** ** The audio context *)

Lemma fire_audioContext (tm : Timer) (rest : list Timer) (st : Page) :
  audioContext (fire tm (set_timers rest st)) = audioContext st.
Proof.
  unfold fire.
  destruct (run_callback_frame (callback tm)
              (set_clock (later (clock_ms (set_timers rest st)) (due tm))
                         (set_timers rest st))) as (_ & _ & H & _).
  rewrite H. reflexivity.
Qed.

Lemma wait_until_audioContext (fuel : nat) (time_ms : Q) (st : Page) :
  audioContext (wait_until fuel time_ms st) = audioContext st.
Proof.
  revert st. induction fuel as [|n IH]; intro st; cbn [wait_until];
    [reflexivity|].
  destruct (timers st) as [|tm rest]; [reflexivity|].
  destruct (Qle_bool (due tm) time_ms); [|reflexivity].
  rewrite IH. apply fire_audioContext.
Qed.

Lemma playTone_audioContext (st st' : Page) :
  playTone st = Some st' -> audioContext st' = audioContext (initAudioContext st).
Proof.
  unfold playTone. destruct (currentTime (initAudioContext st)); [|discriminate].
  intro H. injection H as <-. reflexivity.
Qed.

Lemma initAudioContext_kept (st : Page) (origin : Q) :
  audioContext st = Some origin -> initAudioContext st = st.
Proof. intro H. unfold initAudioContext. rewrite H. reflexivity. Qed.

Lemma initAudioContext_made (st : Page) :
  audioContext (initAudioContext st) = Some (context_origin st).
Proof.
  unfold initAudioContext, context_origin.
  destruct (audioContext st) eqn:E; [exact E|reflexivity].
Qed.

Lemma act_audioContext (a : UserAction) (st : Page) (origin : Q) :
  audioContext st = Some origin -> audioContext (act a st) = Some origin.
Proof.
  intro H. destruct a as [| |time_ms]; cbn [act].
  - destruct (playTone st) as [st'|] eqn:E; [|exact H].
    rewrite (playTone_audioContext _ _ E), (initAudioContext_kept _ _ H). exact H.
  - rewrite playCMajorScale_page. cbn [audioContext].
    unfold context_origin. rewrite H. reflexivity.
  - rewrite wait_until_audioContext. exact H.
Qed.

(** X4. The audio context is made once and reused: once it exists, no click
    and no timer replaces it, so its clock keeps counting from the first
    click; and [initAudioContext] on a page that has one changes nothing,
    not even the status. *)
Theorem audioContext_made_once (actions : list UserAction) (st : Page) (origin : Q) :
  audioContext st = Some origin ->
  audioContext (perform actions st) = Some origin
  /\ initAudioContext st = st.
Proof.
  intro H. split; [|apply (initAudioContext_kept _ _ H)].
  unfold perform. revert st H.
  induction actions as [|a actions IH]; intros st H; [exact H|].
  cbn [fold_left]. apply IH, act_audioContext, H.
Qed.

Lemma audioContext_made_once_witness :
  audioContext (initAudioContext (load_page default_settings)) = Some 0
  /\ audioContext (perform [Wait 700; ClickPlayTone; ClickPlayScale; Wait 5000]
                     (initAudioContext (load_page default_settings))) = Some 0.
Proof.
  assert (H : audioContext (initAudioContext (load_page default_settings)) = Some 0)
    by reflexivity.
  split; [exact H|].
  exact (proj1 (audioContext_made_once _ _ 0 H)).
Defined.



Lemma untouched_act (a : UserAction) (st : Page) :
  untouched st -> untouched (act a st).
Proof.
  intros H Hnone. destruct a as [| |time_ms]; cbn [act] in *.
  - destruct (initAudioContext_currentTime st) as [now Hnow].
    destruct (playTone_unfold st now Hnow) as (st' & E & _).
    rewrite E in Hnone. rewrite (playTone_audioContext _ _ E) in Hnone.
    rewrite initAudioContext_made in Hnone. discriminate.
  - rewrite playCMajorScale_page in Hnone. discriminate.
  - rewrite wait_until_audioContext in Hnone. destruct (H Hnone) as [Ht Hv].
    destruct (List.length (timers st)); cbn [wait_until]; rewrite ?Ht;
      split; assumption.
Qed.

Lemma untouched_perform (actions : list UserAction) (st : Page) :
  untouched st -> untouched (perform actions st).
Proof.
  unfold perform. revert st.
  induction actions as [|a actions IH]; intros st H; [exact H|].
  cbn [fold_left]. apply IH, untouched_act, H.
Qed.

(** X5. A note of the scale never finds the audio context missing: on every
    page the user can reach, pending timers imply an audio context, so the
    [audioContext.currentTime] that [playNoteInScale] starts with is never
    read from null and the first timer's note is built. *)
Theorem note_callbacks_find_context (cfg : Settings) (actions : list UserAction) :
  let st := perform actions (load_page cfg) in
  (audioContext st = None -> timers st = [] /\ voices st = [])
  /\ forall tm rest freq duration noteName,
       timers st = tm :: rest ->
       exists st',
         playNoteInScale freq duration noteName
           (set_clock (later (clock_ms st) (due tm)) (set_timers rest st))
         = Some st'
         /\ List.length (voices st') = S (List.length (voices st)).
Proof.
  cbv zeta.
  assert (H : untouched (perform actions (load_page cfg))).
  { apply untouched_perform. intros _. split; reflexivity. }
  split; [exact H|].
  intros tm rest freq duration noteName Htimers.
  unfold playNoteInScale, currentTime. cbn [audioContext set_clock set_timers].
  destruct (audioContext (perform actions (load_page cfg))) as [origin|] eqn:E.
  - eexists. split; [reflexivity|].
    cbn [voices updateStatus set_status connect set_clock set_timers].
    rewrite length_app. cbn. lia.
  - destruct (H E) as [Ht _]. rewrite Ht in Htimers. discriminate.
Qed.

(** ** Every sound that is asked for is played *)

Lemma pending_notes_insert (tm : Timer) (l : list Timer) :
  pending_notes (insert_timer tm l)
  = ((if is_note (callback tm) then 1 else 0) + pending_notes l)%nat.
Proof.
  unfold pending_notes. induction l as [|x l IH]; cbn [insert_timer].
  - cbn. destruct (is_note (callback tm)); reflexivity.
  - destruct (Qle_bool (due x) (due tm)).
    + cbn [filter]. destruct (is_note (callback x)); cbn [List.length];
        rewrite IH; lia.
    + cbn [filter]. destruct (is_note (callback tm)); reflexivity.
Qed.

Lemma playTone_timers (st st' : Page) :
  playTone st = Some st' ->
  timers st' = insert_timer
                 (mkTimer (clock_ms st + tone_hide_delay (settings st)) CallHideStatus)
                 (timers st)
  /\ clock_ms st' = clock_ms st.
Proof.
  unfold playTone. destruct (currentTime (initAudioContext st)); [|discriminate].
  intro H. injection H as <-.
  destruct (initAudioContext_frame st) as (Hs & Hc & Ht & Hv).
  cbn [timers clock_ms setTimeout showStatus connect set_status set_timers].
  rewrite Hs, Hc, Ht. split; reflexivity.
Qed.

Lemma forEach_schedule_note_pending (l : list Q) (index : nat) (st : Page) :
  pending_notes (timers (forEach schedule_note l index st))
  = (List.length l + pending_notes (timers st))%nat.
Proof.
  revert index st. induction l as [|freq l IH]; intros index st; cbn [forEach];
    [reflexivity|].
  rewrite IH. unfold schedule_note at 1. cbn [timers setTimeout set_timers].
  rewrite pending_notes_insert. cbn. lia.
Qed.

Lemma playCMajorScale_pending (st : Page) :
  pending_notes (timers (playCMajorScale st)) = (8 + pending_notes (timers st))%nat.
Proof.
  unfold playCMajorScale. cbn [timers setTimeout set_timers].
  rewrite pending_notes_insert, forEach_schedule_note_pending.
  destruct (initAudioContext_frame st) as (_ & _ & Ht & _).
  cbn [timers showStatus set_status callback is_note]. rewrite Ht. reflexivity.
Qed.

Lemma fire_notes_in_hand (tm : Timer) (rest : list Timer) (st : Page) (origin : Q) :
  audioContext st = Some origin -> timers st = tm :: rest ->
  notes_in_hand (fire tm (set_timers rest st)) = notes_in_hand st.
Proof.
  intros Hctx Htimers. unfold notes_in_hand. rewrite fire_timers, Htimers.
  unfold fire, pending_notes. cbn [filter].
  destruct (callback tm) as [freq duration noteName|]; cbn [run_callback is_note].
  - unfold playNoteInScale, currentTime. cbn [audioContext set_clock set_timers].
    rewrite Hctx. cbn [voices updateStatus set_status connect set_clock set_timers].
    rewrite length_app. cbn. lia.
  - reflexivity.
Qed.

Lemma run_notes_in_hand (fuel : nat) (st : Page) :
  untouched st -> notes_in_hand (run fuel st) = notes_in_hand st.
Proof.
  revert st. induction fuel as [|n IH]; intros st H; cbn [run]; [reflexivity|].
  destruct (timers st) as [|tm rest] eqn:E; [reflexivity|].
  destruct (audioContext st) as [origin|] eqn:Hctx.
  - rewrite IH; [apply (fire_notes_in_hand _ _ _ origin); assumption|].
    intro Hnone. rewrite fire_audioContext, Hctx in Hnone. discriminate.
  - destruct (H Hctx) as [Ht _]. rewrite Ht in E. discriminate.
Qed.

Lemma wait_until_notes_in_hand (fuel : nat) (time_ms : Q) (st : Page) :
  untouched st -> notes_in_hand (wait_until fuel time_ms st) = notes_in_hand st.
Proof.
  revert st. induction fuel as [|n IH]; intros st H; cbn [wait_until];
    [reflexivity|].
  destruct (timers st) as [|tm rest] eqn:E; [unfold notes_in_hand; cbn; rewrite E; reflexivity|].
  destruct (Qle_bool (due tm) time_ms);
    [|unfold notes_in_hand; cbn; rewrite E; reflexivity].
  destruct (audioContext st) as [origin|] eqn:Hctx.
  - rewrite IH; [apply (fire_notes_in_hand _ _ _ origin); assumption|].
    intro Hnone. rewrite fire_audioContext, Hctx in Hnone. discriminate.
  - destruct (H Hctx) as [Ht _]. rewrite Ht in E. discriminate.
Qed.

Lemma act_notes_in_hand (a : UserAction) (st : Page) :
  untouched st ->
  notes_in_hand (act a st)
  = (notes_in_hand st + tone_clicks [a] + 8 * scale_clicks [a])%nat.
Proof.
  intro H. destruct a as [| |time_ms]; cbn [act].
  - destruct (initAudioContext_currentTime st) as [now Hnow].
    destruct (playTone_unfold st now Hnow) as (st' & E & Hv & _).
    rewrite E. destruct (playTone_timers _ _ E) as [Ht _].
    unfold notes_in_hand. rewrite Hv, Ht, pending_notes_insert, length_app.
    cbn. lia.
  - unfold notes_in_hand. rewrite playCMajorScale_pending.
    rewrite (playCMajorScale_page st) at 1. cbn. lia.
  - rewrite wait_until_notes_in_hand by exact H. cbn. lia.
Qed.

Lemma perform_notes_in_hand (actions : list UserAction) (st : Page) :
  untouched st ->
  notes_in_hand (perform actions st)
  = (notes_in_hand st + tone_clicks actions + 8 * scale_clicks actions)%nat.
Proof.
  unfold perform. revert st.
  induction actions as [|a actions IH]; intros st H; cbn [fold_left].
  - cbn. lia.
  - rewrite IH by (apply untouched_act, H). rewrite act_notes_in_hand by exact H.
    unfold tone_clicks, scale_clicks. cbn [filter].
    destruct a; cbn [List.length]; lia.
Qed.

(** X6. No sound is lost and none is made up: whatever the settings and
    however the user mixes clicks and waiting, once the timers have run the
    page has built one voice for each click on "Play Tone" and eight for
    each click on "Play C-Major Scale", also when a button is clicked while
    an earlier sound still plays. *)
Theorem every_requested_sound_is_played (cfg : Settings) (actions : list UserAction) :
  List.length (voices (run_to_completion (perform actions (load_page cfg))))
  = (tone_clicks actions + 8 * scale_clicks actions)%nat.
Proof.
  assert (Hstart : untouched (load_page cfg)) by (intros _; split; reflexivity).
  pose proof (untouched_perform actions _ Hstart) as H.
  pose proof (run_notes_in_hand
                (List.length (timers (perform actions (load_page cfg)))) _ H) as Hrun.
  fold (run_to_completion (perform actions (load_page cfg))) in Hrun.
  rewrite perform_notes_in_hand in Hrun by exact Hstart.
  unfold notes_in_hand at 1 in Hrun.
  destruct (run_to_completion_quiet (perform actions (load_page cfg))) as [Hq _].
  rewrite Hq in Hrun. cbn in Hrun. lia.
Qed.

(** ** How long the status is shown *)

Lemma tone_hide_delay_nonneg (cfg : Settings) :
  in_slider_domain cfg -> 0 <= tone_hide_delay cfg.
Proof.
  intros [_ _ HA HD _ HR]. unfold tone_hide_delay, tone_noteDuration. lra.
Qed.

(** X7. On an idle page a click on "Play Tone" shows the tone message and
    sets one timer; when it fires, half a second after the oscillator has
    stopped, the status is hidden with its text kept, and the timer builds
    no voice. *)
Theorem playTone_status_lifecycle (st : Page) :
  timers st = [] -> in_slider_domain (settings st) ->
  exists st' now stop,
    playTone st = Some st'
    /\ currentTime (initAudioContext st) = Some now
    /\ stop_time (playTone_voice (settings st) now) = Some stop
    /\ status st' = mkStatus tone_message true
    /\ timers st' =
       [ mkTimer (clock_ms st + tone_hide_delay (settings st)) CallHideStatus ]
    /\ status (run_to_completion st') = mkStatus tone_message false
    /\ voices (run_to_completion st') = voices st'
    /\ timers (run_to_completion st') = []
    /\ exists hidden_at,
         currentTime (run_to_completion st') = Some hidden_at
         /\ hidden_at == stop + (1#2).
Proof.
  intros Hidle Hdom.
  pose proof (initAudioContext_origin st) as Hnow.
  destruct (playTone_unfold st _ Hnow) as (st' & Hplay & Hvoices & Hstatus & Hsettings).
  destruct (playTone_timers _ _ Hplay) as [Htimers Hclock].
  rewrite Hidle in Htimers. cbn [insert_timer] in Htimers.
  pose proof (playTone_audioContext _ _ Hplay) as Hctx.
  rewrite initAudioContext_made in Hctx.
  exists st'. eexists. eexists.
  split; [exact Hplay|]. split; [exact Hnow|]. split; [reflexivity|].
  split; [exact Hstatus|]. split; [exact Htimers|].
  assert (Hdone : run_to_completion st'
            = mkPage (settings st') (clock_ms st + tone_hide_delay (settings st))
                     (Some (context_origin st)) (mkStatus tone_message false)
                     [] (voices st')).
  { unfold run_to_completion. rewrite Htimers. cbn [List.length].
    rewrite (run_cons 0 st' _ [] Htimers).
    rewrite (page_eta st') at 1. rewrite fire_hide, Hclock, Hctx, Hstatus.
    rewrite later_le by (pose proof (tone_hide_delay_nonneg _ Hdom); lra).
    reflexivity. }
  rewrite Hdone. cbn [status voices timers currentTime audioContext clock_ms].
  split; [reflexivity|]. split; [reflexivity|]. split; [reflexivity|].
  eexists. split; [reflexivity|].
  unfold tone_hide_delay. field.
Qed.

Lemma playTone_status_lifecycle_witness :
  timers (load_page default_settings) = []
  /\ in_slider_domain (settings (load_page default_settings))
  /\ exists st', playTone (load_page default_settings) = Some st'
                 /\ status (run_to_completion st') = mkStatus tone_message false.
Proof.
  assert (H1 : timers (load_page default_settings) = []) by reflexivity.
  assert (H2 : in_slider_domain (settings (load_page default_settings)))
    by (split; cbn; try lra; left; reflexivity).
  split; [exact H1|]. split; [exact H2|].
  destruct (playTone_status_lifecycle (load_page default_settings) H1 H2)
    as (st' & now & stop & Hplay & _ & _ & _ & _ & Hdone & _).
  exists st'. split; assumption.
Defined.

Lemma notes_keep_status_shown (origin : Q) (k : nat) (st : Page) :
  audioContext st = Some origin -> active (status st) = true ->
  (k <= List.length (timers st))%nat ->
  Forall (fun tm => is_note (callback tm) = true) (firstn k (timers st)) ->
  status (run k st) = if Nat.eqb k 0 then status st else mkStatus note_message true.
Proof.
  revert st. induction k as [|k IH]; intros st Hctx Hshown Hlen Hnotes;
    [reflexivity|].
  cbn [run Nat.eqb]. destruct (timers st) as [|tm rest] eqn:E; [cbn in Hlen; lia|].
  cbn [firstn] in Hnotes. inversion Hnotes as [|x l Hnote Hrest]; subst.
  assert (Hfire : status (fire tm (set_timers rest st)) = mkStatus note_message true).
  { unfold fire. destruct (callback tm) as [freq duration noteName|];
      [|discriminate Hnote].
    cbn [run_callback]. unfold playNoteInScale, currentTime.
    cbn [audioContext set_clock set_timers]. rewrite Hctx.
    cbn [status updateStatus set_status connect set_clock set_timers].
    unfold updateStatus_element. rewrite Hshown. reflexivity. }
  rewrite IH.
  - destruct (Nat.eqb k 0); [exact Hfire|reflexivity].
  - rewrite fire_audioContext. exact Hctx.
  - rewrite Hfire. reflexivity.
  - rewrite fire_timers. cbn in Hlen. lia.
  - rewrite fire_timers. exact Hrest.
Qed.

(** X8. On an idle page a click on "Play C-Major Scale" shows the scale
    message; from the first note to the eighth the status is shown with the
    note message; the ninth timer hides it, half a second after the last
    note has stopped. *)
Theorem scale_status_lifecycle (st : Page) :
  timers st = [] ->
  status (playCMajorScale st) = mkStatus "Playing C-Major scale..." true
  /\ (forall k, (1 <= k <= 8)%nat ->
        status (run k (playCMajorScale st)) = mkStatus note_message true)
  /\ status (run_to_completion (playCMajorScale st)) = mkStatus note_message false
  /\ exists v stop hidden_at,
       nth_error (scale_voices st) 7 = Some v
       /\ stop_time v = Some stop
       /\ currentTime (run_to_completion (playCMajorScale st)) = Some hidden_at
       /\ hidden_at == stop + (1#2).
Proof.
  intro Hidle.
  split; [rewrite playCMajorScale_page; reflexivity|]. split.
  { intros k Hk.
    rewrite (notes_keep_status_shown (context_origin st));
      try (rewrite playCMajorScale_page; reflexivity).
    - destruct k; [lia|reflexivity].
    - rewrite playCMajorScale_timers by exact Hidle. cbn. lia.
    - rewrite playCMajorScale_timers by exact Hidle.
      destruct k as [|[|[|[|[|[|[|[|[|k]]]]]]]]]; try lia;
        cbn [firstn]; repeat constructor. }
  rewrite playCMajorScale_run by exact Hidle.
  split; [reflexivity|].
  rewrite scale_voices_run by exact Hidle.
  unfold currentTime. cbn [audioContext clock_ms nth_error].
  exists (scale_note st 7 (52325 # 100)).
  exists (scale_note_start st 7 + scale_noteDuration). eexists.
  split; [reflexivity|]. split; [reflexivity|]. split; [reflexivity|].
  unfold scale_note_start, scale_noteDuration, Q_of_nat.
  cbn [Z.of_nat Pos.of_succ_nat Pos.succ]. unfold inject_Z. field.
Qed.

Lemma scale_status_lifecycle_witness :
  timers (load_page default_settings) = []
  /\ status (run 3 (playCMajorScale (load_page default_settings)))
     = mkStatus note_message true.
Proof.
  assert (H : timers (load_page default_settings) = []) by reflexivity.
  split; [exact H|].
  apply (proj1 (proj2 (scale_status_lifecycle (load_page default_settings) H)) 3%nat).
  lia.
Defined.

(** ** The notes of the scale follow one another *)





(** X10. The gain of a note of the scale makes no jump: from the start of
    the note on it never changes faster than 50 per second, so no note of
    the scale begins or ends with a click. *)
Theorem scale_note_gain_no_jump (st : Page) :
  timers st = [] ->
  forall v, In v (scale_voices st) ->
    exists now,
      start_time v = Some now
      /\ forall t t', now <= t -> now <= t' ->
           Qabs (gain_at v t' - gain_at v t) <= 50 * Qabs (t' - t).
Proof.
  intros Hidle v Hin. rewrite scale_voices_run in Hin by exact Hidle.
  cbn [In] in Hin.
  repeat (destruct Hin as [<-|Hin];
          [eexists; split; [reflexivity|];
           intros t t'; apply scale_gain_lipschitz;
           apply scale_noteDuration_long_enough|]).
  destruct Hin.
Qed.

Lemma scale_note_gain_no_jump_witness :
  timers (load_page default_settings) = []
  /\ exists now,
       start_time (scale_note (load_page default_settings) 0 (26163 # 100)) = Some now.
Proof.
  assert (H : timers (load_page default_settings) = []) by reflexivity.
  split; [exact H|].
  destruct (scale_note_gain_no_jump (load_page default_settings) H
              (scale_note (load_page default_settings) 0 (26163 # 100)))
    as (now & Hnow & _).
  - rewrite scale_voices_run by exact H. left. reflexivity.
  - exists now. exact Hnow.
Defined.

(** ** Timers fire when they are due *)

Lemma in_due_order_from (from from' : Q) (l : list Timer) :
  from' <= from -> in_due_order from l -> in_due_order from' l.
Proof.
  intros H Hl. destruct l as [|tm l]; [exact I|].
  destruct Hl as [H1 H2]. split; [lra|exact H2].
Qed.














(** ** Nothing is ever taken back *)

Lemma run_callback_voices (cb : Callback) (st : Page) :
  exists l, voices (run_callback cb st) = voices st ++ l.
Proof.
  destruct cb as [freq duration noteName|]; cbn [run_callback].
  - unfold playNoteInScale. destruct (currentTime st).
    + eexists. reflexivity.
    + exists []. symmetry. apply app_nil_r.
  - exists []. symmetry. apply app_nil_r.
Qed.

Lemma fire_voices (tm : Timer) (rest : list Timer) (st : Page) :
  exists l, voices (fire tm (set_timers rest st)) = voices st ++ l.
Proof.
  unfold fire.
  destruct (run_callback_voices (callback tm)
              (set_clock (later (clock_ms (set_timers rest st)) (due tm))
                         (set_timers rest st))) as [l H].
  exists l. exact H.
Qed.

Lemma wait_until_voices (fuel : nat) (time_ms : Q) (st : Page) :
  exists l, voices (wait_until fuel time_ms st) = voices st ++ l.
Proof.
  revert st. induction fuel as [|n IH]; intro st; cbn [wait_until];
    [exists []; symmetry; apply app_nil_r|].
  destruct (timers st) as [|tm rest]; [exists []; symmetry; apply app_nil_r|].
  destruct (Qle_bool (due tm) time_ms); [|exists []; symmetry; apply app_nil_r].
  destruct (IH (fire tm (set_timers rest st))) as [l Hl].
  destruct (fire_voices tm rest st) as [l' Hl'].
  exists (l' ++ l). rewrite Hl, Hl'. symmetry. apply app_assoc.
Qed.

Lemma act_voices (a : UserAction) (st : Page) :
  exists l, voices (act a st) = voices st ++ l.
Proof.
  destruct a as [| |time_ms]; cbn [act].
  - destruct (initAudioContext_currentTime st) as [now Hnow].
    destruct (playTone_unfold st now Hnow) as (st' & -> & Hv & _).
    eexists. exact Hv.
  - rewrite playCMajorScale_page. exists []. symmetry. apply app_nil_r.
  - apply wait_until_voices.
Qed.

(** X12. The page takes nothing back. A click never removes a pending timer,
    so a scale or a status that is under way cannot be cancelled; and a voice
    once built is never removed or changed: whatever the user does, the
    voices of the page are the earlier ones followed by new ones. *)
Theorem nothing_is_taken_back (actions : list UserAction) (st : Page) :
  (exists l, voices (perform actions st) = voices st ++ l)
  /\ forall tm, In tm (timers st) ->
       In tm (timers (act ClickPlayTone st))
       /\ In tm (timers (act ClickPlayScale st)).
Proof.
  split; [|intros tm H; apply clicks_keep_timers, H].
  unfold perform. revert st.
  induction actions as [|a actions IH]; intro st; cbn [fold_left].
  - exists []. symmetry. apply app_nil_r.
  - destruct (IH (act a st)) as [l Hl]. destruct (act_voices a st) as [l' Hl'].
    exists (l' ++ l). rewrite Hl, Hl'. symmetry. apply app_assoc.
Qed.

(** ** One status for every sound *)

Lemma playTone_page (st : Page) :
  playTone st =
  Some {| settings := settings st;
          clock_ms := clock_ms st;
          audioContext := Some (context_origin st);
          status := mkStatus tone_message true;
          timers := insert_timer
                      (mkTimer (clock_ms st + tone_hide_delay (settings st))
                               CallHideStatus)
                      (timers st);
          voices := voices st ++
                    [playTone_voice (settings st)
                       ((clock_ms st - context_origin st) / 1000)] |}.
Proof.
  destruct (playTone_unfold st _ (initAudioContext_origin st))
    as (st' & Hplay & Hv & Hs & Hcfg).
  destruct (playTone_timers _ _ Hplay) as [Ht Hc].
  pose proof (playTone_audioContext _ _ Hplay) as Hctx.
  rewrite initAudioContext_made in Hctx.
  rewrite Hplay, (page_eta st'), Hv, Hs, Hcfg, Ht, Hc, Hctx. reflexivity.
Qed.

Ltac page_now :=
  cbn [load_page settings clock_ms audioContext status timers voices
       set_status set_timers set_clock set_audioContext set_settings connect
       context_origin insert_timer due callback app List.length wait_until
       hideStatus_element textContent active].

(** X13. The status is shared and its timers are never cancelled: when a
    second tone is started more than half a second after a first one that
    has not yet been hidden, the timer of the first tone hides the status
    while the second tone is still sounding. *)
Theorem second_tone_loses_its_status (cfg : Settings) (delta : Q) :
  in_slider_domain cfg -> 500 < delta -> delta < tone_hide_delay cfg ->
  let st := perform [ClickPlayTone; Wait delta; ClickPlayTone;
                     Wait (tone_hide_delay cfg)] (load_page cfg) in
  status st = mkStatus tone_message false
  /\ exists v1 v2 t,
       voices st = [v1; v2]
       /\ currentTime st = Some t
       /\ sounding v1 t = false
       /\ sounding v2 t = true
       /\ List.length (timers st) = 1%nat.
Proof.
  intros Hdom Hlate Hearly. cbv zeta.
  pose proof (tone_hide_delay_nonneg _ Hdom) as Hdelay.
  unfold perform. cbn [fold_left].
  (* the first tone *)
  cbn [act]. rewrite (playTone_page (load_page cfg)). page_now.
  (* waiting for the second click *)
  rewrite (Qle_bool_false (0 + tone_hide_delay cfg) delta) by lra.
  page_now. rewrite (later_le 0 delta) by lra.
  (* the second tone *)
  rewrite playTone_page. page_now.
  rewrite (Qle_bool_true (0 + tone_hide_delay cfg) (delta + tone_hide_delay cfg))
    by lra.
  page_now.
  (* the timer of the first tone fires *)
  rewrite (Qle_bool_true (0 + tone_hide_delay cfg) (tone_hide_delay cfg)) by lra.
  rewrite fire_hide. rewrite (later_le delta (0 + tone_hide_delay cfg)) by lra.
  page_now.
  rewrite (Qle_bool_false (delta + tone_hide_delay cfg) (tone_hide_delay cfg)) by lra.
  page_now.
  rewrite (later_le (0 + tone_hide_delay cfg) (tone_hide_delay cfg)) by lra.
  unfold currentTime. page_now.
  split; [reflexivity|].
  eexists. eexists. eexists.
  split; [reflexivity|]. split; [reflexivity|].
  destruct Hdom as [_ _ HA HD _ HR].
  unfold sounding, tone_hide_delay, tone_noteDuration in *.
  cbn [start_time stop_time playTone_voice]. unfold tone_noteDuration.
  assert (E0 : (0 - 0) / 1000 == 0) by field.
  assert (E1 : (delta - 0) / 1000 * 1000 == delta) by field.
  assert (E2 : ((attack cfg + decay cfg + (1 # 2) + release cfg) * 1000 + 500 - 0)
               / 1000
               == attack cfg + decay cfg + (1 # 2) + release cfg + (1 # 2))
    by field.
  split; [|split; [|reflexivity]]; qle_bool; reflexivity.
Qed.

Lemma second_tone_loses_its_status_witness :
  in_slider_domain default_settings
  /\ 500 < 600 /\ 600 < tone_hide_delay default_settings
  /\ status (perform [ClickPlayTone; Wait 600; ClickPlayTone;
                      Wait (tone_hide_delay default_settings)]
                     (load_page default_settings))
     = mkStatus tone_message false.
Proof.
  assert (H1 : in_slider_domain default_settings)
    by (split; cbn; try lra; left; reflexivity).
  assert (H2 : 500 < 600) by lra.
  assert (H3 : 600 < tone_hide_delay default_settings)
    by (unfold tone_hide_delay, tone_noteDuration; cbn; lra).
  split; [exact H1|]. split; [exact H2|]. split; [exact H3|].
  exact (proj1 (second_tone_loses_its_status default_settings 600 H1 H2 H3)).
Defined.
